(** * FoldStateManager: the fold state of the editor's tree

    A shallow embedding of [app/scripts/services/fold-state-manager.js].

    The service keeps one JavaScript object tree ([foldState]), addressed by
    arrays of string keys, and mutates it in place.  The embedding keeps the
    tree as a first-order value and threads it through every function; a
    reference to a node of the tree is the list of keys that leads to it
    from the root (the tree is built by [JSON.parse], by an object literal
    and by fresh [{$folded: false}] literals only, so no node is shared
    between two places).  Two aliasings of the source are kept explicit:
    the variable [foldState] may be the very object [defaultState], and the
    array handed to [walkToNode] is emptied by [path.shift()].

    Scope of the value model: [null], booleans and plain objects.  A property
    read of the embedding sees own properties only; the program also finds
    the members every object inherits from its prototype, so the embedding is
    the program as long as no key is looked up that names such a member
    without being an own property.  [inherited_names] lists those names,
    [walk_within] is the walk that stops there, and a statement that depends
    on it says so in a hypothesis ([own_only], [lookup_truthy]).  Listeners are identities that are called and return;
    [Object.keys] lists the keys in insertion order (the engine's hoisting of
    integer-like keys is not modelled).  The file is a strict-mode script, so
    a property write on a primitive raises a [TypeError]. *)

From Stdlib Require Import String List Bool Arith ZArith Lia.
Import ListNotations.
Open Scope string_scope.
Open Scope list_scope.

Set Warnings "-register-all".

(** ** JavaScript values *)

Inductive value : Type :=
| VNull
| VBool (b : bool)
| VObj (fields : list (string * value)).

(** A property read yields a value or [undefined]. *)
Definition jsval : Type := option value.
Definition undefined : jsval := None.

(** ToBoolean, as used by [!x] and [if (x)]. *)
Definition truthy (v : value) : bool :=
  match v with
  | VNull => false
  | VBool b => b
  | VObj _ => true
  end.

Definition to_boolean (x : jsval) : bool :=
  match x with
  | Some v => truthy v
  | None => false
  end.

(** [_.isObject] *)
Definition isObject (v : value) : bool :=
  match v with
  | VObj _ => true
  | _ => false
  end.

(** The reserved keys. *)
Definition marker : string := "$folded".
Definition wildcard : string := "*".

(** Own-property lookup [o[k]] in a field list. *)
Fixpoint assoc (k : string) (fs : list (string * value)) : jsval :=
  match fs with
  | [] => None
  | (k', v) :: rest => if (k =? k')%string then Some v else assoc k rest
  end.

(** Own-property write [o[k] = x]: an existing key keeps its place, a new key
    goes last. *)
Fixpoint put (k : string) (x : value) (fs : list (string * value))
  : list (string * value) :=
  match fs with
  | [] => [(k, x)]
  | (k', v) :: rest =>
      if (k =? k')%string then (k, x) :: rest else (k', v) :: put k x rest
  end.

(** [Object.keys(o)] *)
Definition keys (fs : list (string * value)) : list string := map fst fs.

(** The object literal [{$folded: false}]. *)
Definition fresh_node : value := VObj [(marker, VBool false)].

(** ** Errors *)

Inductive exn : Type :=
| LocalStorageNotFound   (* Error('localStorage was not found.') *)
| JsonSyntaxError        (* SyntaxError raised by JSON.parse *)
| WildcardKey            (* Error('key can not be a wildcard.') *)
| PathNotArray           (* TypeError('path should be an array.') *)
| PathMustEndWithWildcard (* Error('Path should end with "*" in this method.') *)
| PrimitiveProperty.     (* TypeError of the engine: property access on a primitive *)

Inductive exn_class : Type := ClsError | ClsTypeError | ClsSyntaxError.

Definition class_of (e : exn) : exn_class :=
  match e with
  | LocalStorageNotFound => ClsError
  | JsonSyntaxError => ClsSyntaxError
  | WildcardKey => ClsError
  | PathNotArray => ClsTypeError
  | PathMustEndWithWildcard => ClsError
  | PrimitiveProperty => ClsTypeError
  end.

Inductive result (A : Type) : Type :=
| Ok (a : A)
| Raise (e : exn).
Arguments Ok {A} a.
Arguments Raise {A} e.

Definition result_map {A B : Type} (f : A -> B) (r : result A) : result B :=
  match r with
  | Ok a => Ok (f a)
  | Raise e => Raise e
  end.

(** ** Nodes of a tree, by reference *)

(** A reference to a node: the keys from the root of the tree down to it. *)
Definition ref : Type := list string.

(** The value a reference points to. *)
Fixpoint node_at (t : value) (r : ref) : jsval :=
  match r with
  | [] => Some t
  | k :: r' =>
      match t with
      | VObj fs =>
          match assoc k fs with
          | Some c => node_at c r'
          | None => None
          end
      | _ => None
      end
  end.

(** [o[k] = x] on a value known to be an object. *)
Definition set_field (k : string) (x : value) (o : value) : value :=
  match o with
  | VObj fs => VObj (put k x fs)
  | _ => o
  end.

(** In-place change of the node a reference points to. *)
Fixpoint update_at (r : ref) (f : value -> value) (t : value) : value :=
  match r with
  | [] => f t
  | k :: r' =>
      match t with
      | VObj fs =>
          match assoc k fs with
          | Some c => VObj (put k (update_at r' f c) fs)
          | None => t
          end
      | _ => t
      end
  end.

(** ** walkToNode *)

(** What a call of [walkToNode(path)] leaves behind: the tree, what is left in
    the array [path], and the node returned (or the error raised). *)
Record walked : Type := Walked {
  w_tree : value;
  w_path : list string;
  w_node : result ref
}.

(** The loop of [walkToNode], started with [current] bound to the root of the
    subtree [current]:

      while (path.length) {
        previus = current;
        key = path.shift();
        if (key === '*') throw new Error('key can not be a wildcard.');
        current = current[key];
        if (!current) { previus[key] = {$folded: false}; current = previus; }
      }
      return current;

    The returned reference is relative to the subtree the loop started at. *)
Fixpoint walkFrom (current : value) (path : list string) {struct path} : walked :=
  match path with
  | [] => Walked current [] (Ok [])
  | key :: path' =>
      if (key =? wildcard)%string then Walked current path' (Raise WildcardKey)
      else
        match current with
        | VObj fs =>
            (* previus[key] = {$folded: false}; current = previus; *)
            let created := walkFrom (VObj (put key fresh_node fs)) path' in
            match assoc key fs with
            | Some child =>
                if truthy child then
                  let w := walkFrom child path' in
                  Walked (VObj (put key (w_tree w) fs)) (w_path w)
                         (result_map (cons key) (w_node w))
                else created
            | None => created
            end
        | _ =>
            (* reading a property of null, or writing one on a primitive *)
            Walked current path' (Raise PrimitiveProperty)
        end
  end.

(** [walkToNode(path)] on the tree [foldState]. *)
Definition walkToNode (foldState : value) (path : list string) : walked :=
  walkFrom foldState path.

(** Creating the children [ks] of an object one after the other. *)
Definition create_all (ks : list string) (o : value) : value :=
  fold_left (fun o k => set_field k fresh_node o) ks o.

(** [node.$folded] read through a reference: [undefined] on a primitive. *)
Definition read_marker (t : value) (node : ref) : jsval :=
  match node_at t node with
  | Some (VObj fs) => assoc marker fs
  | _ => undefined
  end.

(** [node.$folded = v] through a reference; strict mode refuses the write on a
    primitive. *)
Definition write_marker (node : ref) (v : bool) (t : value) : result value :=
  match node_at t node with
  | Some (VObj _) => Ok (update_at node (set_field marker (VBool v)) t)
  | _ => Raise PrimitiveProperty
  end.

(** ** Array helpers of the source *)

(** Position of a possibly negative index in an array of length [len]. *)
Definition clamp_index (len : nat) (i : Z) : nat :=
  if (i <? 0)%Z then Z.to_nat (Z.max (Z.of_nat len + i) 0)
  else Nat.min (Z.to_nat i) len.

(** [l.slice(b, e)] and [l.slice(b)]: fresh arrays. *)
Definition slice {A : Type} (l : list A) (b e : Z) : list A :=
  let from := clamp_index (length l) b in
  let to := clamp_index (length l) e in
  firstn (to - from) (skipn from l).

Definition slice_from {A : Type} (l : list A) (b : Z) : list A :=
  skipn (clamp_index (length l) b) l.

(** [l.splice(start, deleteCount)]: the removed elements, and what is left in
    [l].  A negative [deleteCount] counts as zero. *)
Definition splice {A : Type} (l : list A) (start deleteCount : Z)
  : list A * list A :=
  let from := clamp_index (length l) start in
  let n := Nat.min (Z.to_nat (Z.max deleteCount 0)) (length l - from) in
  (firstn n (skipn from l), firstn from l ++ skipn (from + n) l).

(** [l.indexOf(k)], -1 when absent. *)
Fixpoint indexOf (k : string) (l : list string) : Z :=
  match l with
  | [] => (-1)%Z
  | x :: rest =>
      if (x =? k)%string then 0%Z
      else
        let i := indexOf k rest in
        if (i <? 0)%Z then (-1)%Z else (i + 1)%Z
  end.

(** [_.last(l)] *)
Definition last_of (l : list string) : option string :=
  last (map Some l) None.

(** [_.last(path) !== '*'] *)
Definition not_ends_with_wildcard (path : list string) : bool :=
  match last_of path with
  | Some k => negb (k =? wildcard)%string
  | None => true
  end.

(** [_.isEqual(restOfPath, ['*'])] *)
Definition is_single_wildcard (restOfPath : list string) : bool :=
  match restOfPath with
  | [k] => (k =? wildcard)%string
  | _ => false
  end.

(** [Object.keys(root)] through a reference. *)
Definition keys_at (t : value) (root : ref) : list string :=
  match node_at t root with
  | Some (VObj fs) => keys fs
  | _ => []
  end.

Definition isObject_at (t : value) (root : ref) : bool :=
  match node_at t root with
  | Some v => isObject v
  | None => false
  end.

(** ** visit *)

(** State of a traversal: the tree, the caller's array [path], and whether the
    traversal is still running normally. *)
Record visited (A : Type) : Type := Visited {
  v_tree : value;
  v_path : list string;
  v_ret : result A
}.
Arguments Visited {A} v_tree v_path v_ret.
Arguments v_tree {A} v.
Arguments v_path {A} v.
Arguments v_ret {A} v.

(** [keys.forEach(body)]: an exception of [body] ends the loop.  [None] stands
    for a recursion that ran out of fuel. *)
Fixpoint forEach
  (body : string -> value -> list string -> option (visited unit))
  (ks : list string) (t : value) (path : list string) : option (visited unit) :=
  match ks with
  | [] => Some (Visited t path (Ok tt))
  | nodeName :: ks' =>
      match body nodeName t path with
      | Some (Visited t' path' (Ok _)) => forEach body ks' t' path'
      | other => other
      end
  end.

(** [visit(path, fn)] with an array [path]; [fn] acts on the tree through the
    reference it is given. *)
Fixpoint visit_fuel (fuel : nat) (fn : ref -> value -> value * result unit)
  (path : list string) (t : value) : option (visited unit) :=
  match fuel with
  | O => None
  | S fuel' =>
      if not_ends_with_wildcard path then
        let w := walkToNode t path in
        match w_node w with
        | Raise e => Some (Visited (w_tree w) (w_path w) (Raise e))
        | Ok node =>
            if to_boolean (node_at (w_tree w) node) then
              let (t', r) := fn node (w_tree w) in
              Some (Visited t' (w_path w) r)
            else Some (Visited (w_tree w) (w_path w) (Ok tt))
        end
      else
        let pathToRoot := slice path 0 (indexOf wildcard path) in
        let restOfPath := slice_from path (indexOf wildcard path) in
        let w := walkToNode t pathToRoot in
        let pathToRoot := w_path w in
        match w_node w with
        | Raise e => Some (Visited (w_tree w) path (Raise e))
        | Ok root =>
            if negb (isObject_at (w_tree w) root) then
              Some (Visited (w_tree w) path (Ok tt))
            else
              forEach
                (fun nodeName t path =>
                   if (nodeName =? marker)%string then
                     Some (Visited t path (Ok tt))
                   else
                     let (removed, path) := splice path 0 (-1) in
                     let w := walkToNode t (removed ++ [nodeName]) in
                     match w_node w with
                     | Raise e => Some (Visited (w_tree w) path (Raise e))
                     | Ok node =>
                         if is_single_wildcard restOfPath then
                           let (t', r) := fn node (w_tree w) in
                           Some (Visited t' path r)
                         else
                           let newPath :=
                             pathToRoot ++ ([nodeName] ++ slice_from restOfPath 1) in
                           match visit_fuel fuel' fn newPath (w_tree w) with
                           | Some v => Some (Visited (v_tree v) path (v_ret v))
                           | None => None
                           end
                     end)
                (keys_at (w_tree w) root) (w_tree w) path
        end
  end.

(** Every recursive call of [visit] has one wildcard less. *)
Definition wildcards (path : list string) : nat :=
  count_occ string_dec path wildcard.

Definition visit (fn : ref -> value -> value * result unit)
  (path : list string) (t : value) : option (visited unit) :=
  visit_fuel (S (wildcards path)) fn path t.

(** The callback of [toggleFoldAll]: [node.$folded = !node.$folded]. *)
Definition toggle_node (node : ref) (t : value) : value * result unit :=
  match write_marker node (negb (to_boolean (read_marker t node))) t with
  | Ok t' => (t', Ok tt)
  | Raise e => (t, Raise e)
  end.

(** ** isAllFolded on the tree *)

(** [keys.every(body)]: stops at the first [false]. *)
Fixpoint every
  (body : string -> value -> list string -> option (visited bool))
  (ks : list string) (t : value) (path : list string) : option (visited bool) :=
  match ks with
  | [] => Some (Visited t path (Ok true))
  | nodeName :: ks' =>
      match body nodeName t path with
      | Some (Visited t' path' (Ok true)) => every body ks' t' path'
      | other => other
      end
  end.

Fixpoint isAllFolded_fuel (fuel : nat) (path : list string) (t : value)
  : option (visited bool) :=
  match fuel with
  | O => None
  | S fuel' =>
      if not_ends_with_wildcard path then
        Some (Visited t path (Raise PathMustEndWithWildcard))
      else
        let pathToRoot := slice path 0 (indexOf wildcard path) in
        let restOfPath := slice_from path (indexOf wildcard path) in
        let w := walkToNode t pathToRoot in
        let pathToRoot := w_path w in
        match w_node w with
        | Raise e => Some (Visited (w_tree w) path (Raise e))
        | Ok root =>
            if negb (isObject_at (w_tree w) root) then
              Some (Visited (w_tree w) path (Ok false))
            else
              every
                (fun nodeName t path =>
                   if (nodeName =? marker)%string then
                     Some (Visited t path (Ok true))
                   else
                     let (removed, path) := splice path 0 (-1) in
                     let w := walkToNode t (removed ++ [nodeName]) in
                     match w_node w with
                     | Raise e => Some (Visited (w_tree w) path (Raise e))
                     | Ok node =>
                         if negb (to_boolean (node_at (w_tree w) node)) then
                           Some (Visited (w_tree w) path (Ok false))
                         else if is_single_wildcard restOfPath then
                           Some (Visited (w_tree w) path
                                   (Ok (negb (to_boolean (read_marker (w_tree w) node)))))
                         else
                           let newPath :=
                             pathToRoot ++ ([nodeName] ++ slice_from restOfPath 1) in
                           match isAllFolded_fuel fuel' newPath (w_tree w) with
                           | Some v => Some (Visited (v_tree v) path (v_ret v))
                           | None => None
                           end
                     end)
                (keys_at (w_tree w) root) (w_tree w) path
        end
  end.

Definition isAllFolded_tree (path : list string) (t : value)
  : option (visited bool) :=
  isAllFolded_fuel (S (wildcards path)) path t.

(** ** The service object *)

(** The string kept under the key ['foldState'] of [window.localStorage], up
    to JSON: either the serialization of a value, or a string that is no JSON
    text at all (such as a lone opening brace). *)
Inductive text : Type :=
| NotJSON
| JSON (v : value).

(** [window.localStorage], reduced to the one key the service uses; [None] is
    a key that was never set ([getItem] answers [null]). *)
Definition Storage : Type := option text.

Definition getItem (ls : Storage) : option text := ls.
Definition setItem (x : text) (ls : Storage) : Storage := Some x.

(** [JSON.parse(x)]: the argument [null] is first converted to the string
    ["null"], which parses to [null]. *)
Definition JSON_parse (x : option text) : result value :=
  match x with
  | None => Ok VNull
  | Some NotJSON => Raise JsonSyntaxError
  | Some (JSON v) => Ok v
  end.

Definition JSON_stringify (v : value) : text := JSON v.

(** The variable [foldState] refers either to the object [defaultState] itself
    (after [foldState = defaultState]) or to the tree [JSON.parse] built. *)
Inductive tree_var : Type :=
| TheDefaultState
| Parsed (t : value).

(** Change listeners are told apart by identity. *)
Definition listener : Type := nat.

(** The arguments a listener is applied to. *)
Inductive arguments : Type :=
| NoArguments
| NodeAndValue (node : ref) (v : bool).

Record service : Type := Service {
  defaultState : value;
  foldState : tree_var;
  changeListeners : list listener;
  localStorage : Storage;
  (** every listener call made so far, oldest first *)
  invoked : list (listener * arguments)
}.

(** The object literal bound to [defaultState]. *)
Definition defaultState_literal : value :=
  VObj [("foldState",
         VObj [("info", fresh_node);
               ("securityDefinitions", fresh_node);
               ("tags", fresh_node);
               ("paths", fresh_node);
               ("definitions", fresh_node)])].

(** The constructor body: [window.localStorage] may be missing altogether. *)
Definition FoldStateManager (window_localStorage : option Storage) : result service :=
  match window_localStorage with
  | None => Raise LocalStorageNotFound
  | Some ls =>
      match JSON_parse (getItem ls) with
      | Raise e => Raise e
      | Ok parsed =>
          Ok (Service defaultState_literal
                      (if negb (truthy parsed) then TheDefaultState else Parsed parsed)
                      [] ls [])
      end
  end.

(** The tree the variable [foldState] refers to. *)
Definition tree (s : service) : value :=
  match foldState s with
  | TheDefaultState => defaultState s
  | Parsed t => t
  end.

(** In-place mutation of that tree: it lands in [defaultState] when the two are
    the same object. *)
Definition set_tree (t : value) (s : service) : service :=
  match foldState s with
  | TheDefaultState =>
      Service t TheDefaultState (changeListeners s) (localStorage s) (invoked s)
  | Parsed _ =>
      Service (defaultState s) (Parsed t) (changeListeners s) (localStorage s)
              (invoked s)
  end.

(** [invokeChangeListeners(args...)] *)
Definition invokeChangeListeners (args : arguments) (s : service) : service :=
  Service (defaultState s) (foldState s) (changeListeners s)
          (setItem (JSON_stringify (tree s)) (localStorage s))
          (invoked s ++ map (fun fn => (fn, args)) (changeListeners s)).

(** The argument of a public method: an array of keys, or anything else. *)
Inductive argument : Type :=
| AnArray (path : list string)
| NotAnArray (x : jsval).

(** What a public method leaves behind: the service, the caller's argument
    object, and the value returned (or the error raised). *)
Record outcome (A : Type) : Type := Outcome {
  o_service : service;
  o_arg : argument;
  o_ret : result A
}.
Arguments Outcome {A} o_service o_arg o_ret.
Arguments o_service {A} o.
Arguments o_arg {A} o.
Arguments o_ret {A} o.

(** [changeFold(path, value)]; [value = None] is the omitted argument. *)
Definition changeFold (path : list string) (v : option bool) (s : service)
  : outcome unit :=
  let w := walkToNode (tree s) path in
  let s1 := set_tree (w_tree w) s in
  match w_node w with
  | Raise e => Outcome s1 (AnArray (w_path w)) (Raise e)
  | Ok node =>
      if to_boolean (node_at (w_tree w) node) then
        let v' :=
          match v with
          | Some b => b
          | None => negb (to_boolean (read_marker (w_tree w) node))
          end in
        match write_marker node v' (w_tree w) with
        | Raise e => Outcome s1 (AnArray (w_path w)) (Raise e)
        | Ok t' =>
            Outcome (invokeChangeListeners (NodeAndValue node v') (set_tree t' s1))
                    (AnArray (w_path w)) (Ok tt)
        end
      else Outcome s1 (AnArray (w_path w)) (Ok tt)
  end.

Definition fold (path : argument) (s : service) : outcome unit :=
  match path with
  | AnArray p => changeFold p (Some true) s
  | NotAnArray _ => Outcome s path (Raise PathNotArray)
  end.

Definition unfold (path : argument) (s : service) : outcome unit :=
  match path with
  | AnArray p => changeFold p (Some false) s
  | NotAnArray _ => Outcome s path (Raise PathNotArray)
  end.

Definition toggleFold (path : argument) (s : service) : outcome unit :=
  match path with
  | AnArray p => changeFold p None s
  | NotAnArray _ => Outcome s path (Raise PathNotArray)
  end.

(** [toggleFoldAll(path)]; [None] only if [visit] ran out of fuel. *)
Definition toggleFoldAll (path : argument) (s : service) : option (outcome unit) :=
  match path with
  | NotAnArray _ => Some (Outcome s path (Raise PathNotArray))
  | AnArray p =>
      match visit toggle_node p (tree s) with
      | None => None
      | Some v =>
          let s1 := set_tree (v_tree v) s in
          match v_ret v with
          | Raise e => Some (Outcome s1 (AnArray (v_path v)) (Raise e))
          | Ok _ =>
              Some (Outcome (invokeChangeListeners NoArguments s1)
                            (AnArray (v_path v)) (Ok tt))
          end
      end
  end.

(** [isFolded(path)]: the value of [node.$folded], [undefined] included. *)
Definition isFolded (path : argument) (s : service) : outcome jsval :=
  match path with
  | NotAnArray _ => Outcome s path (Raise PathNotArray)
  | AnArray p =>
      let w := walkToNode (tree s) p in
      let s1 := set_tree (w_tree w) s in
      match w_node w with
      | Raise e => Outcome s1 (AnArray (w_path w)) (Raise e)
      | Ok node =>
          if to_boolean (node_at (w_tree w) node) then
            Outcome s1 (AnArray (w_path w)) (Ok (read_marker (w_tree w) node))
          else Outcome s1 (AnArray (w_path w)) (Ok undefined)
      end
  end.

(** [isAllFolded(path)]; [None] only if the recursion ran out of fuel. *)
Definition isAllFolded (path : argument) (s : service) : option (outcome bool) :=
  match path with
  | NotAnArray _ => Some (Outcome s path (Raise PathNotArray))
  | AnArray p =>
      match isAllFolded_tree p (tree s) with
      | None => None
      | Some v =>
          Some (Outcome (set_tree (v_tree v) s) (AnArray (v_path v)) (v_ret v))
      end
  end.

(** [onFoldChanged(fn)]: [changeListeners] is a [Set]. *)
Definition onFoldChanged (fn : listener) (s : service) : service :=
  if existsb (Nat.eqb fn) (changeListeners s) then s
  else Service (defaultState s) (foldState s) (changeListeners s ++ [fn])
               (localStorage s) (invoked s).

(** [reset()] *)
Definition reset (s : service) : service :=
  Service (defaultState s) (foldState s) (changeListeners s)
          (setItem (JSON_stringify (defaultState s)) (localStorage s))
          (invoked s).

(** ** Trees used in the examples *)

Definition folded_node : value := VObj [(marker, VBool true)].

(** A service whose tree was loaded from storage, with two listeners. *)
Definition loaded (t : value) : service :=
  Service defaultState_literal (Parsed t) [1; 2] (Some (JSON t)) [].

Definition petstore : value :=
  VObj [("paths", VObj [(marker, VBool false)])].

Definition marked_tree : value :=
  VObj [(marker, VBool false); ("paths", folded_node)].

Definition two_paths : value :=
  VObj [("paths", VObj [(marker, VBool false);
                        ("/pets", fresh_node);
                        ("/users", folded_node)])].

(** The service right after construction on a storage that holds nothing. *)
Definition pristine : service :=
  Service defaultState_literal TheDefaultState [] None [].

(** ** Well-formed trees

    The tree shape of the data model: every node is an object that carries a
    boolean marker, and every other entry of it is again such a node. *)

Definition has_marker (fs : list (string * value)) : bool :=
  match assoc marker fs with
  | Some (VBool _) => true
  | _ => false
  end.

Fixpoint well_formed (v : value) : bool :=
  match v with
  | VObj fs =>
      has_marker fs
      && forallb (fun kc => let (k, c) := kc : string * value in
                            (k =? marker)%string || well_formed c) fs
  | _ => false
  end.

(** ** Clients

    A client of the service: a sequence of calls of its public methods, each
    on an argument object of its own; an error raised by a call is caught by
    the client, which goes on with the next call. *)
Inductive call : Type :=
| CallFold (path : argument)
| CallUnfold (path : argument)
| CallToggleFold (path : argument)
| CallToggleFoldAll (path : argument)
| CallIsFolded (path : argument)
| CallIsAllFolded (path : argument)
| CallOnFoldChanged (fn : listener)
| CallReset.

Definition after_call (c : call) (s : service) : service :=
  match c with
  | CallFold a => o_service (fold a s)
  | CallUnfold a => o_service (unfold a s)
  | CallToggleFold a => o_service (toggleFold a s)
  | CallToggleFoldAll a =>
      match toggleFoldAll a s with
      | Some o => o_service o
      | None => s
      end
  | CallIsFolded a => o_service (isFolded a s)
  | CallIsAllFolded a =>
      match isAllFolded a s with
      | Some o => o_service o
      | None => s
      end
  | CallOnFoldChanged fn => onFoldChanged fn s
  | CallReset => reset s
  end.

Definition after_calls (cs : list call) (s : service) : service :=
  fold_left (fun s c => after_call c s) cs s.

(** Whether [foldState] is the object [defaultState], and what that object
    holds when it is not. *)
Definition separate (s : service) : Prop :=
  (exists t, foldState s = Parsed t) /\ defaultState s = defaultState_literal.

Definition aliased (s : service) : Prop := foldState s = TheDefaultState.

(** Every node of [t] at depth [depth] or more, reached by keys other than the
    marker key, is still in [t'], with the marker entry it had. *)
Definition keeps_markers_from (depth : nat) (t t' : value) : Prop :=
  forall (r : ref) (fs : list (string * value)),
    depth <= length r ->
    ~ In marker r ->
    node_at t r = Some (VObj fs) ->
    exists fs',
      node_at t' r = Some (VObj fs') /\ assoc marker fs' = assoc marker fs.

(** [n] calls of [isFolded(path)] in a row, each on a fresh copy of the
    array. *)
Definition isFolded_times (n : nat) (path : list string) (s : service) : service :=
  Nat.iter n (fun s => o_service (isFolded (AnArray path) s)) s.

(** A well-formed tree all of whose nodes are unfolded. *)
Definition has_false_marker (fs : list (string * value)) : bool :=
  match assoc marker fs with
  | Some (VBool false) => true
  | _ => false
  end.

Fixpoint all_unfolded (v : value) : bool :=
  match v with
  | VObj fs =>
      has_false_marker fs
      && forallb (fun kc => let (k, c) := kc : string * value in
                            (k =? marker)%string || all_unfolded c) fs
  | _ => false
  end.

(** ** Members inherited from the prototype

    The names an object finds on [Object.prototype] (a boolean finds three of
    them on [Boolean.prototype], and the others behind it).  They are
    functions, or for [__proto__] the prototype itself: all truthy. *)
Definition inherited_names : list string :=
  ["constructor"; "hasOwnProperty"; "isPrototypeOf"; "propertyIsEnumerable";
   "toLocaleString"; "toString"; "valueOf"; "__proto__";
   "__defineGetter__"; "__defineSetter__";
   "__lookupGetter__"; "__lookupSetter__"].

Definition inherited (k : string) : bool :=
  existsb (String.eqb k) inherited_names.


(** A path none of whose keys names an inherited member. *)
Definition own_only (path : list string) : bool :=
  forallb (fun k => negb (inherited k)) path.

(** A tree made of objects: every entry of a node, its marker entry apart, is
    again such a node.  The marker itself is optional (the default tree has
    none at its root). *)
Fixpoint node_shaped (v : value) : bool :=
  match v with
  | VObj fs =>
      forallb (fun kc => let (k, c) := kc : string * value in
                         (k =? marker)%string || node_shaped c) fs
  | _ => false
  end.

(** The loop of [walkToNode] with the prototype in view: the same steps as
    [walkFrom], and [None] as soon as a lookup finds an inherited member
    (there is no own property under the key, and the key names a member of
    the prototype), where the program walks on into the engine's own
    objects. *)
Fixpoint walk_within (current : value) (path : list string) {struct path}
  : option walked :=
  match path with
  | [] => Some (Walked current [] (Ok []))
  | key :: path' =>
      if (key =? wildcard)%string then
        Some (Walked current path' (Raise WildcardKey))
      else
        match current with
        | VObj fs =>
            match assoc key fs with
            | Some child =>
                if truthy child then
                  match walk_within child path' with
                  | Some w =>
                      Some (Walked (VObj (put key (w_tree w) fs)) (w_path w)
                                   (result_map (cons key) (w_node w)))
                  | None => None
                  end
                else walk_within (VObj (put key fresh_node fs)) path'
            | None =>
                if inherited key then None
                else walk_within (VObj (put key fresh_node fs)) path'
            end
        | VBool _ =>
            if inherited key then None
            else Some (Walked current path' (Raise PrimitiveProperty))
        | VNull => Some (Walked current path' (Raise PrimitiveProperty))
        end
  end.

(** * Properties *)

(** ** Field lists *)

Lemma assoc_put_same (k : string) (x : value) (fs : list (string * value)) :
  assoc k (put k x fs) = Some x.
Proof.
  induction fs as [|[k' v] fs IH]; simpl.
  - now rewrite String.eqb_refl.
  - destruct (String.eqb_spec k k') as [->|Hne]; simpl.
    + now rewrite String.eqb_refl.
    + apply String.eqb_neq in Hne. now rewrite Hne.
Qed.

Lemma assoc_put_other (k k' : string) (x : value) (fs : list (string * value)) :
  k <> k' -> assoc k (put k' x fs) = assoc k fs.
Proof.
  intros Hne. induction fs as [|[k0 v] fs IH]; simpl.
  - apply String.eqb_neq in Hne. now rewrite Hne.
  - destruct (String.eqb_spec k' k0) as [->|Hne0]; simpl.
    + apply String.eqb_neq in Hne. now rewrite Hne.
    + now rewrite IH.
Qed.

Lemma put_assoc_id (k : string) (c : value) (fs : list (string * value)) :
  assoc k fs = Some c -> put k c fs = fs.
Proof.
  induction fs as [|[k' v] fs IH]; simpl; [discriminate|].
  destruct (String.eqb_spec k k') as [->|Hne]; intros H.
  - now injection H as ->.
  - now rewrite IH.
Qed.

Lemma put_put (k : string) (x y : value) (fs : list (string * value)) :
  put k y (put k x fs) = put k y fs.
Proof.
  induction fs as [|[k' v] fs IH]; simpl.
  - now rewrite String.eqb_refl.
  - destruct (String.eqb_spec k k') as [->|Hne]; simpl.
    + now rewrite String.eqb_refl.
    + apply String.eqb_neq in Hne. now rewrite Hne, IH.
Qed.

(** ** References *)

Lemma node_at_object_truthy (c : value) (r : ref) (fs : list (string * value)) :
  node_at c r = Some (VObj fs) -> truthy c = true.
Proof.
  destruct r, c; simpl; intros H; try discriminate; reflexivity.
Qed.

Lemma update_at_id (r : ref) (t v : value) :
  node_at t r = Some v -> update_at r (fun _ => v) t = t.
Proof.
  revert t. induction r as [|k r IH]; intros t; simpl.
  - now intros [= ->].
  - destruct t as [| |fs]; try discriminate.
    destruct (assoc k fs) as [c|] eqn:Hk; [|discriminate].
    intros H. rewrite (IH _ H). now rewrite put_assoc_id.
Qed.

Lemma node_at_update_at (r : ref) (f : value -> value) (t v : value) :
  node_at t r = Some v -> node_at (update_at r f t) r = Some (f v).
Proof.
  revert t. induction r as [|k r IH]; intros t; simpl.
  - now intros [= ->].
  - destruct t as [| |fs]; try discriminate.
    destruct (assoc k fs) as [c|] eqn:Hk; [|discriminate].
    intros H. simpl. rewrite assoc_put_same. now apply IH.
Qed.

Lemma node_at_app (t : value) (q r : ref) :
  node_at t (q ++ r) =
  match node_at t q with
  | Some v => node_at v r
  | None => None
  end.
Proof.
  revert t. induction q as [|k q IH]; intros t; simpl; [reflexivity|].
  destruct t as [| |fs]; try reflexivity.
  destruct (assoc k fs); [apply IH|reflexivity].
Qed.

Lemma update_at_compose (r : ref) (f g : value -> value) (t : value) :
  update_at r g (update_at r f t) = update_at r (fun v => g (f v)) t.
Proof.
  revert t. induction r as [|k r IH]; intros t; simpl; [reflexivity|].
  destruct t as [| |fs]; try reflexivity.
  destruct (assoc k fs) as [c|] eqn:Hk; simpl.
  - now rewrite assoc_put_same, put_put, IH.
  - now rewrite Hk.
Qed.

Lemma update_at_ext (r : ref) (f g : value -> value) (t v : value) :
  node_at t r = Some v -> f v = g v -> update_at r f t = update_at r g t.
Proof.
  revert t. induction r as [|k r IH]; intros t; simpl.
  - now intros [= ->].
  - destruct t as [| |fs]; try discriminate.
    destruct (assoc k fs) as [c|] eqn:Hk; [|discriminate].
    intros H Hfg. now rewrite (IH _ H Hfg).
Qed.

(** ** The walk *)

(** A walk that returns has emptied the array. *)
Lemma walkFrom_returns_empty (path : list string) :
  forall (current : value) (node : ref),
    w_node (walkFrom current path) = Ok node ->
    w_path (walkFrom current path) = [].
Proof.
  induction path as [|key path IH]; intros current node; simpl; [reflexivity|].
  destruct (key =? wildcard)%string; simpl; [discriminate|].
  destruct current as [| |fs]; simpl; try discriminate.
  destruct (assoc key fs) as [child|].
  - destruct (truthy child); simpl.
    + destruct (w_node (walkFrom child path)) as [n|e] eqn:Hn; simpl;
        [|discriminate].
      intros _. exact (IH _ _ Hn).
    + apply IH.
  - apply IH.
Qed.

(** The tree an object walk leaves behind is still an object. *)
Lemma walkFrom_object (path : list string) :
  forall fs, exists fs', w_tree (walkFrom (VObj fs) path) = VObj fs'.
Proof.
  induction path as [|key path IH]; intros fs; simpl; [now exists fs|].
  destruct (key =? wildcard)%string; simpl; [now exists fs|].
  destruct (assoc key fs) as [child|]; [destruct (truthy child)|]; simpl;
    eauto.
Qed.

(** Walking through nodes that exist: the walk goes on from the node reached,
    and the tree changes below that node only. *)
Lemma walkFrom_existing (q : ref) :
  forall (t : value) (fs : list (string * value)) (rest : list string),
    ~ In wildcard q ->
    node_at t q = Some (VObj fs) ->
    walkFrom t (q ++ rest) =
    let w := walkFrom (VObj fs) rest in
    Walked (update_at q (fun _ => w_tree w) t) (w_path w)
           (result_map (app q) (w_node w)).
Proof.
  induction q as [|k q IH]; intros t fs rest Hw Hq; simpl in *.
  - injection Hq as ->. destruct (walkFrom (VObj fs) rest) as [t' p' [n|e]];
      reflexivity.
  - destruct t as [| |fs0]; try discriminate.
    destruct (assoc k fs0) as [c|] eqn:Hk; [|discriminate].
    destruct (String.eqb_spec k wildcard) as [->|Hne]; [tauto|].
    rewrite (node_at_object_truthy _ _ _ Hq).
    rewrite (IH c fs rest (fun H => Hw (or_intror H)) Hq). simpl.
    destruct (w_node (walkFrom (VObj fs) rest)); reflexivity.
Qed.


(** The step of the loop at a key whose lookup is falsy. *)
Lemma walkFrom_missing (fs : list (string * value)) (key : string)
  (rest : list string) :
  key <> wildcard ->
  to_boolean (assoc key fs) = false ->
  walkFrom (VObj fs) (key :: rest) = walkFrom (VObj (put key fresh_node fs)) rest.
Proof.
  intros Hne Hmiss. simpl. apply String.eqb_neq in Hne. rewrite Hne.
  destruct (assoc key fs) as [child|]; [|reflexivity].
  simpl in Hmiss. now rewrite Hmiss.
Qed.

Lemma create_all_object (ks : list string) :
  forall fs, exists fs', create_all ks (VObj fs) = VObj fs'.
Proof.
  induction ks as [|k ks IH]; intros fs; simpl; [now exists fs|apply IH].
Qed.


(** ** Claims *)

(** Where the walk stays within the tree, [walkFrom] is that walk; it does so
    on every path that names no inherited member. *)
Lemma walk_within_agrees (path : list string) :
  forall (current : value) (w : walked),
    walk_within current path = Some w -> w = walkFrom current path.
Proof.
  induction path as [|key path IH]; intros current w; simpl.
  - now intros [= <-].
  - destruct (key =? wildcard)%string; [now intros [= <-]|].
    destruct current as [|b|fs].
    + now intros [= <-].
    + destruct (inherited key); [discriminate|now intros [= <-]].
    + destruct (assoc key fs) as [child|].
      * destruct (truthy child); [|apply IH].
        destruct (walk_within child path) as [w'|] eqn:Hw'; [|discriminate].
        intros [= <-]. now rewrite (IH _ _ Hw').
      * destruct (inherited key); [discriminate|apply IH].
Qed.

Lemma walk_within_own_only (path : list string) :
  forall current : value,
    own_only path = true ->
    walk_within current path = Some (walkFrom current path).
Proof.
  induction path as [|key path IH]; intros current Hown; [reflexivity|].
  simpl in Hown. apply andb_prop in Hown as [Hkey Hown].
  apply negb_true_iff in Hkey. simpl.
  destruct (key =? wildcard)%string; [reflexivity|].
  destruct current as [|b|fs]; [reflexivity|now rewrite Hkey|].
  destruct (assoc key fs) as [child|].
  - destruct (truthy child); [|now apply IH].
    now rewrite (IH child Hown).
  - rewrite Hkey. now apply IH.
Qed.




(** C10.  A call of [fold], [unfold], [toggleFold] or [isFolded] that returns
    leaves the caller's array empty, so the same array then addresses the
    root: [walkToNode] of the empty array returns the root at once. *)
Theorem path_argument_consumed (p : list string) (s : service) :
  (forall u, o_ret (fold (AnArray p) s) = Ok u ->
             o_arg (fold (AnArray p) s) = AnArray [])
  /\ (forall u, o_ret (unfold (AnArray p) s) = Ok u ->
                o_arg (unfold (AnArray p) s) = AnArray [])
  /\ (forall u, o_ret (toggleFold (AnArray p) s) = Ok u ->
                o_arg (toggleFold (AnArray p) s) = AnArray [])
  /\ (forall x, o_ret (isFolded (AnArray p) s) = Ok x ->
                o_arg (isFolded (AnArray p) s) = AnArray [])
  /\ walkToNode (tree s) [] = Walked (tree s) [] (Ok []).
Proof.
  assert (Hchange : forall v u,
             o_ret (changeFold p v s) = Ok u ->
             o_arg (changeFold p v s) = AnArray []).
  { intros v u. unfold changeFold, walkToNode.
    pose proof (walkFrom_returns_empty p (tree s)) as Hempty.
    destruct (w_node (walkFrom (tree s) p)) as [node|e] eqn:Hn; simpl;
      [|discriminate].
    rewrite (Hempty node eq_refl).
    destruct (to_boolean _); [|reflexivity].
    destruct (write_marker _ _ _); simpl; [reflexivity|discriminate]. }
  repeat split; try (intros u; apply Hchange).
  intros x. unfold isFolded, walkToNode.
  pose proof (walkFrom_returns_empty p (tree s)) as Hempty.
  destruct (w_node (walkFrom (tree s) p)) as [node|e] eqn:Hn; simpl;
    [|discriminate].
  rewrite (Hempty node eq_refl). now destruct (to_boolean _).
Qed.

Lemma path_argument_consumed_witness :
  o_arg (fold (AnArray ["paths"; "/pets"]) (loaded petstore)) = AnArray [].
Proof.
  destruct (path_argument_consumed ["paths"; "/pets"] (loaded petstore))
    as [H _].
  apply (H tt). reflexivity.
Defined.

(** C8.  Each of [fold], [unfold], [toggleFold], [isFolded] and [isAllFolded],
    given anything but an array, raises [TypeError('path should be an
    array.')] and leaves the service (tree, storage, listeners) as it was. *)
Theorem non_array_path_rejected (x : jsval) (s : service) :
  fold (NotAnArray x) s = Outcome s (NotAnArray x) (Raise PathNotArray)
  /\ unfold (NotAnArray x) s = Outcome s (NotAnArray x) (Raise PathNotArray)
  /\ toggleFold (NotAnArray x) s = Outcome s (NotAnArray x) (Raise PathNotArray)
  /\ isFolded (NotAnArray x) s = Outcome s (NotAnArray x) (Raise PathNotArray)
  /\ isAllFolded (NotAnArray x) s =
     Some (Outcome s (NotAnArray x) (Raise PathNotArray))
  /\ class_of PathNotArray = ClsTypeError.
Proof. repeat split. Qed.

(** ** Well-formed trees along a walk *)

Lemma well_formed_object (fs : list (string * value)) :
  well_formed (VObj fs) =
  has_marker fs
  && forallb (fun kc => let (k, c) := kc : string * value in
                        (k =? marker)%string || well_formed c) fs.
Proof. reflexivity. Qed.

Lemma assoc_In (k : string) (c : value) (fs : list (string * value)) :
  assoc k fs = Some c -> In (k, c) fs.
Proof.
  induction fs as [|[k' v] fs IH]; simpl; [discriminate|].
  destruct (String.eqb_spec k k') as [->|Hne].
  - intros [= ->]. now left.
  - intros H. right. now apply IH.
Qed.

Lemma well_formed_child (fs : list (string * value)) (k : string) (c : value) :
  well_formed (VObj fs) = true ->
  assoc k fs = Some c ->
  k <> marker ->
  well_formed c = true.
Proof.
  rewrite well_formed_object. intros Hwf Hk Hne.
  apply andb_prop in Hwf as [_ Hall].
  rewrite forallb_forall in Hall. specialize (Hall _ (assoc_In _ _ _ Hk)).
  simpl in Hall. apply String.eqb_neq in Hne. now rewrite Hne in Hall.
Qed.

Lemma well_formed_put (fs : list (string * value)) (k : string) (c : value) :
  well_formed (VObj fs) = true ->
  well_formed c = true ->
  k <> marker ->
  well_formed (VObj (put k c fs)) = true.
Proof.
  rewrite !well_formed_object. intros Hwf Hc Hne.
  apply andb_prop in Hwf as [Hm Hall]. apply andb_true_intro. split.
  - unfold has_marker in *. rewrite assoc_put_other; [exact Hm|].
    intros Heq. now apply Hne.
  - clear Hm. induction fs as [|[k' v] fs IH]; simpl in *.
    + now rewrite Hc, orb_true_r.
    + apply andb_prop in Hall as [Hv Hall].
      destruct (k =? k')%string; simpl.
      * now rewrite Hc, orb_true_r, Hall.
      * now rewrite Hv, IH.
Qed.

Lemma well_formed_fresh : well_formed fresh_node = true.
Proof. reflexivity. Qed.

Lemma well_formed_is_object (v : value) :
  well_formed v = true -> exists fs, v = VObj fs.
Proof. destruct v as [| |fs]; try discriminate. now exists fs. Qed.

(** On a well-formed tree a walk along ordinary keys always returns, keeps the
    tree well formed, and ends at a node that carries a boolean marker. *)
Lemma walkFrom_well_formed (path : list string) :
  forall current : value,
    well_formed current = true ->
    ~ In wildcard path ->
    ~ In marker path ->
    exists t' node fs' b,
      walkFrom current path = Walked t' [] (Ok node)
      /\ well_formed t' = true
      /\ node_at t' node = Some (VObj fs')
      /\ assoc marker fs' = Some (VBool b).
Proof.
  induction path as [|key path IH]; intros current Hwf Hw Hm.
  - destruct (well_formed_is_object _ Hwf) as [fs ->].
    pose proof Hwf as Hwf'. rewrite well_formed_object in Hwf'.
    apply andb_prop in Hwf' as [Hmk _]. unfold has_marker in Hmk.
    destruct (assoc marker fs) as [[| b |]|] eqn:Hb; try discriminate.
    exists (VObj fs), [], fs, b. simpl. auto.
  - destruct (well_formed_is_object _ Hwf) as [fs ->].
    assert (Hkw : key <> wildcard) by (intros ->; apply Hw; now left).
    assert (Hkm : key <> marker) by (intros ->; apply Hm; now left).
    assert (Hw' : ~ In wildcard path) by (intros H; apply Hw; now right).
    assert (Hm' : ~ In marker path) by (intros H; apply Hm; now right).
    assert (Hcreate :
              exists t' node fs' b,
                walkFrom (VObj (put key fresh_node fs)) path =
                Walked t' [] (Ok node)
                /\ well_formed t' = true
                /\ node_at t' node = Some (VObj fs')
                /\ assoc marker fs' = Some (VBool b)).
    { apply IH; trivial. apply well_formed_put; trivial. }
    simpl. apply String.eqb_neq in Hkw. rewrite Hkw.
    destruct (assoc key fs) as [child|] eqn:Hk; [|exact Hcreate].
    destruct (truthy child) eqn:Ht; [|exact Hcreate].
    pose proof (well_formed_child fs key child Hwf Hk Hkm) as Hchild.
    destruct (IH child Hchild Hw' Hm') as (t' & node & fs' & b & -> & Hwt & Hn & Hb).
    exists (VObj (put key t' fs)), (key :: node), fs', b. simpl.
    rewrite assoc_put_same. repeat split; trivial.
    now apply well_formed_put.
Qed.

(** ** Trees made of objects along a walk *)

Lemma node_shaped_object (fs : list (string * value)) :
  node_shaped (VObj fs) =
  forallb (fun kc => let (k, c) := kc : string * value in
                     (k =? marker)%string || node_shaped c) fs.
Proof. reflexivity. Qed.

Lemma node_shaped_is_object (v : value) :
  node_shaped v = true -> exists fs, v = VObj fs.
Proof. destruct v as [| |fs]; try discriminate. now exists fs. Qed.

Lemma node_shaped_child (fs : list (string * value)) (k : string) (c : value) :
  node_shaped (VObj fs) = true ->
  assoc k fs = Some c ->
  k <> marker ->
  node_shaped c = true.
Proof.
  rewrite node_shaped_object. intros Hall Hk Hne.
  rewrite forallb_forall in Hall. specialize (Hall _ (assoc_In _ _ _ Hk)).
  simpl in Hall. apply String.eqb_neq in Hne. now rewrite Hne in Hall.
Qed.

Lemma forallb_put_entry (P : string * value -> bool) (k : string) (x : value)
  (fs : list (string * value)) :
  forallb P fs = true -> P (k, x) = true -> forallb P (put k x fs) = true.
Proof.
  intros Hall Hx. induction fs as [|[k' v] fs IH]; simpl in *.
  - now rewrite Hx.
  - apply andb_prop in Hall as [Hv Hall].
    destruct (k =? k')%string; simpl.
    + now rewrite Hx, Hall.
    + now rewrite Hv, IH.
Qed.

Lemma node_shaped_put (fs : list (string * value)) (k : string) (c : value) :
  node_shaped (VObj fs) = true ->
  node_shaped c = true ->
  node_shaped (VObj (put k c fs)) = true.
Proof.
  rewrite !node_shaped_object. intros Hall Hc.
  apply forallb_put_entry; [exact Hall|]. cbv beta iota.
  now rewrite Hc, orb_true_r.
Qed.


(** On a tree made of objects a walk along ordinary keys always returns,
    leaves a tree made of objects, and ends at an object. *)
Lemma walkFrom_node_shaped (path : list string) :
  forall current : value,
    node_shaped current = true ->
    ~ In wildcard path ->
    ~ In marker path ->
    exists t' node fs',
      walkFrom current path = Walked t' [] (Ok node)
      /\ node_shaped t' = true
      /\ node_at t' node = Some (VObj fs').
Proof.
  induction path as [|key path IH]; intros current Hns Hw Hm.
  - destruct (node_shaped_is_object _ Hns) as [fs ->].
    exists (VObj fs), [], fs. simpl. auto.
  - destruct (node_shaped_is_object _ Hns) as [fs ->].
    assert (Hkw : key <> wildcard) by (intros ->; apply Hw; now left).
    assert (Hkm : key <> marker) by (intros ->; apply Hm; now left).
    assert (Hw' : ~ In wildcard path) by (intros H; apply Hw; now right).
    assert (Hm' : ~ In marker path) by (intros H; apply Hm; now right).
    assert (Hcreate :
              exists t' node fs',
                walkFrom (VObj (put key fresh_node fs)) path =
                Walked t' [] (Ok node)
                /\ node_shaped t' = true
                /\ node_at t' node = Some (VObj fs')).
    { apply IH; trivial. now apply node_shaped_put. }
    simpl. apply String.eqb_neq in Hkw. rewrite Hkw.
    destruct (assoc key fs) as [child|] eqn:Hk; [|exact Hcreate].
    destruct (truthy child) eqn:Ht; [|exact Hcreate].
    destruct (IH child (node_shaped_child fs key child Hns Hk Hkm) Hw' Hm')
      as (t' & node & fs' & -> & Hnt & Hn).
    exists (VObj (put key t' fs)), (key :: node), fs'. simpl.
    rewrite assoc_put_same. repeat split; trivial.
    now apply node_shaped_put.
Qed.

Lemma set_tree_tree (s : service) : set_tree (tree s) s = s.
Proof. destruct s as [d [|t] l ls i]; reflexivity. Qed.

Lemma tree_set_tree (t : value) (s : service) : tree (set_tree t s) = t.
Proof. destruct s as [d [|t0] l ls i]; reflexivity. Qed.

(** C3, as the code has it.  The item under ['foldState'] is read and parsed
    once.  When the key is absent or holds a JSON text, construction succeeds
    and only reads the storage: the tree is the parsed value when that is
    truthy and the default tree otherwise.  When the item is not a JSON text,
    the [SyntaxError] of [JSON.parse] reaches the caller. *)
Theorem construction_outcome (ls : Storage) :
  match getItem ls with
  | Some NotJSON => FoldStateManager (Some ls) = Raise JsonSyntaxError
  | Some (JSON v) =>
      exists s, FoldStateManager (Some ls) = Ok s
                /\ tree s = (if truthy v then v else defaultState_literal)
                /\ localStorage s = ls
  | None =>
      exists s, FoldStateManager (Some ls) = Ok s
                /\ tree s = defaultState_literal
                /\ localStorage s = ls
  end.
Proof.
  destruct ls as [[|v]|]; simpl; [reflexivity| |eauto].
  destruct (truthy v); simpl; eauto.
Qed.

(** C3 as stated fails: an item that is not a JSON text makes the constructor
    raise a [SyntaxError]. *)
Lemma construction_raises_on_malformed_item :
  FoldStateManager (Some (Some NotJSON)) = Raise JsonSyntaxError
  /\ class_of JsonSyntaxError = ClsSyntaxError
  /\ ~ (forall ls : Storage, exists s, FoldStateManager (Some ls) = Ok s).
Proof.
  repeat split. intros H. destruct (H (Some NotJSON)) as [s Hs].
  discriminate Hs.
Qed.

(** [isFolded] on a path whose node exists: the node's own entry, and no
    change. *)
Lemma isFolded_existing (s : service) (p : list string)
  (fs : list (string * value)) :
  ~ In wildcard p ->
  node_at (tree s) p = Some (VObj fs) ->
  isFolded (AnArray p) s = Outcome s (AnArray []) (Ok (assoc marker fs)).
Proof.
  intros Hw Hnode. unfold isFolded, walkToNode.
  pose proof (walkFrom_existing p (tree s) fs [] Hw Hnode) as Hwalk.
  rewrite app_nil_r in Hwalk. rewrite Hwalk. simpl.
  rewrite app_nil_r, (update_at_id p _ _ Hnode), set_tree_tree.
  unfold read_marker. now rewrite Hnode.
Qed.

(** C6, as the code has it.  For an array [p] without wildcard: when the node
    addressed by [p] exists, [isFolded(p)] returns its [$folded] entry
    ([undefined] only when the node has none) and changes nothing.  When it
    does not exist the answer is not [undefined] on that account: for a [p]
    that avoids the marker key and the names of inherited members, on a tree
    made of objects (the default tree is one), [isFolded(p)] returns the
    [$folded] entry of an object of the tree, the one the walk ends at, so
    it is [undefined] only if that object has no marker; in a tree all of
    whose nodes carry a boolean marker it is a boolean. *)
Theorem isFolded_result (s : service) (p : list string) :
  ~ In wildcard p ->
  (forall fs, node_at (tree s) p = Some (VObj fs) ->
              isFolded (AnArray p) s = Outcome s (AnArray []) (Ok (assoc marker fs)))
  /\ (node_shaped (tree s) = true ->
      ~ In marker p ->
      own_only p = true ->
      exists node fs',
        node_at (tree (o_service (isFolded (AnArray p) s))) node
        = Some (VObj fs')
        /\ o_ret (isFolded (AnArray p) s) = Ok (assoc marker fs'))
  /\ (well_formed (tree s) = true ->
      ~ In marker p ->
      own_only p = true ->
      exists b, o_ret (isFolded (AnArray p) s) = Ok (Some (VBool b))).
Proof.
  intros Hw. split; [|split].
  - intros fs Hnode. now apply isFolded_existing.
  - intros Hns Hm _. unfold isFolded, walkToNode.
    destruct (walkFrom_node_shaped p (tree s) Hns Hw Hm)
      as (t' & node & fs' & -> & _ & Hn).
    exists node, fs'. simpl. rewrite Hn. simpl. rewrite tree_set_tree.
    split; [exact Hn|]. unfold read_marker. now rewrite Hn.
  - intros Hwf Hm _. unfold isFolded, walkToNode.
    destruct (walkFrom_well_formed p (tree s) Hwf Hw Hm)
      as (t' & node & fs' & b & -> & _ & Hn & Hb).
    exists b. simpl. unfold read_marker. rewrite Hn. simpl. now rewrite Hb.
Qed.

Lemma isFolded_result_witness :
  isFolded (AnArray ["paths"]) (loaded marked_tree) =
  Outcome (loaded marked_tree) (AnArray []) (Ok (Some (VBool true)))
  /\ (exists node fs',
        node_at (tree (o_service (isFolded (AnArray ["paths"]) pristine))) node
        = Some (VObj fs')
        /\ o_ret (isFolded (AnArray ["paths"]) pristine) = Ok (assoc marker fs'))
  /\ exists b,
      o_ret (isFolded (AnArray ["paths"; "/pets"]) (loaded marked_tree)) =
      Ok (Some (VBool b)).
Proof.
  split; [|split].
  - refine (proj1 (isFolded_result (loaded marked_tree) ["paths"] _)
                  [(marker, VBool true)] eq_refl).
    simpl. intros [H|[]]. discriminate H.
  - refine (proj1 (proj2 (isFolded_result pristine ["paths"] _))
                  eq_refl _ eq_refl).
    + simpl. intros [H|[]]. discriminate H.
    + simpl. intros [H|[]]. discriminate H.
  - refine (proj2 (proj2 (isFolded_result (loaded marked_tree)
                            ["paths"; "/pets"] _))
                  eq_refl _ eq_refl).
    + simpl. intros [H|[H|[]]]; discriminate H.
    + simpl. intros [H|[H|[]]]; discriminate H.
Defined.

(** C6 as stated fails: the node [paths.x] does not exist, and [isFolded]
    answers [true], the marker of its parent, instead of [undefined]. *)
Lemma isFolded_missing_node_not_undefined :
  let s := loaded (VObj [("paths", folded_node)]) in
  node_at (tree s) ["paths"; "x"] = None
  /\ o_ret (isFolded (AnArray ["paths"; "x"]) s) = Ok (Some (VBool true))
  /\ o_ret (isFolded (AnArray ["paths"; "x"]) s) <> Ok undefined.
Proof. repeat split. discriminate. Qed.

(** ** The services used in the examples are reachable *)

(** [loaded t] is what the constructor builds on a storage that holds the
    serialization of a truthy [t], once two listeners are registered;
    registering one of them again changes nothing. *)
Lemma loaded_reachable (t : value) :
  truthy t = true ->
  exists s0,
    FoldStateManager (Some (Some (JSON t))) = Ok s0
    /\ onFoldChanged 2 (onFoldChanged 1 s0) = loaded t
    /\ onFoldChanged 1 (loaded t) = loaded t.
Proof.
  intros Ht. simpl. rewrite Ht. simpl. eexists. repeat split.
Qed.

Lemma pristine_reachable : FoldStateManager (Some None) = Ok pristine.
Proof. reflexivity. Qed.

(** ** Where the code departs from the claims *)

(** C1 on the code.  [toggleFoldAll(['paths', '*'])] on a tree whose [paths]
    node has the children [/pets] (unfolded) and [/users] (folded): both
    children keep their markers.  For each child name the callback is handed
    [walkToNode([name])], a walk from the root of the tree, because
    [path.splice(0, -1)] is the empty array: the name is created at the top
    level and the root's own marker is toggled, once per child.  The two
    listeners are each called once, without arguments. *)
Theorem toggleFoldAll_paths_children_untouched :
  splice ["paths"; "*"] 0 (-1) = ([], ["paths"; "*"])
  /\ exists s',
      toggleFoldAll (AnArray ["paths"; "*"]) (loaded two_paths) =
      Some (Outcome s' (AnArray ["paths"; "*"]) (Ok tt))
      /\ tree s' =
         VObj [("paths", VObj [(marker, VBool false);
                               ("/pets", fresh_node);
                               ("/users", folded_node)]);
               ("/pets", fresh_node);
               (marker, VBool false);
               ("/users", fresh_node)]
      /\ read_marker (tree s') ["paths"; "/pets"] = Some (VBool false)
      /\ read_marker (tree s') ["paths"; "/users"] = Some (VBool true)
      /\ invoked s' = [(1, NoArguments); (2, NoArguments)].
Proof. split; [reflexivity|]. eexists. repeat split. Qed.

(** C2 on the code.  [isAllFolded(['paths', '*'])] answers [true] although the
    only child of [paths] is folded (the marker it reads is the root's, which
    is absent), and it answers [true] on the empty tree, where no [paths]
    node exists (the walk creates it and returns the root). *)
Theorem isAllFolded_paths_reads_root :
  (exists s',
      isAllFolded (AnArray ["paths"; "*"])
                  (loaded (VObj [("paths", VObj [(marker, VBool false);
                                                 ("/pets", folded_node)])])) =
      Some (Outcome s' (AnArray ["paths"; "*"]) (Ok true))
      /\ read_marker (tree s') ["paths"; "/pets"] = Some (VBool true))
  /\ node_at (VObj []) ["paths"] = None
  /\ exists s',
      isAllFolded (AnArray ["paths"; "*"]) (loaded (VObj [])) =
      Some (Outcome s' (AnArray ["paths"; "*"]) (Ok true)).
Proof. split; [|split]; [eexists; split; reflexivity|reflexivity|eexists; reflexivity]. Qed.

(** C4 on the code.  Right after construction on an empty storage,
    [fold(['paths'])] followed by [isFolded(['paths'])] answers [false]: the
    tree has no [paths] entry at its top level, so [fold] creates one and
    folds the node the walk came back to, the root. *)
Theorem fold_then_isFolded_on_default_tree :
  FoldStateManager (Some None) = Ok pristine
  /\ node_at (tree pristine) ["paths"] = None
  /\ let s1 := o_service (fold (AnArray ["paths"]) pristine) in
     o_ret (fold (AnArray ["paths"]) pristine) = Ok tt
     /\ read_marker (tree s1) [] = Some (VBool true)
     /\ o_ret (isFolded (AnArray ["paths"]) s1) = Ok (Some (VBool false)).
Proof. repeat split. Qed.

(** C7 on the code.  Two calls of [toggleFold(['paths', '/pets'])] on a tree
    whose [paths] node is unfolded and has no child: the first call creates
    [/pets] and folds [paths], the second folds [/pets].  Neither node is
    back to the unfolded state. *)
Theorem toggleFold_twice_on_missing_node :
  let p := AnArray ["paths"; "/pets"] in
  let s1 := o_service (toggleFold p (loaded petstore)) in
  let s2 := o_service (toggleFold p s1) in
  node_at (tree (loaded petstore)) ["paths"; "/pets"] = None
  /\ read_marker (tree (loaded petstore)) ["paths"] = Some (VBool false)
  /\ tree s1 = VObj [("paths", VObj [(marker, VBool true); ("/pets", fresh_node)])]
  /\ tree s2 = VObj [("paths", VObj [(marker, VBool true); ("/pets", folded_node)])]
  /\ o_ret (toggleFold p (loaded petstore)) = Ok tt
  /\ o_ret (toggleFold p s1) = Ok tt.
Proof. repeat split. Qed.

(** C9 on the code.  After construction on an empty storage the variable
    [foldState] is the object [defaultState] itself, so a fold is a change of
    [defaultState], and [reset()] stores the changed object: the section
    [info] is stored folded. *)
Theorem reset_after_fold_on_default_tree :
  let s1 := o_service (fold (AnArray ["foldState"; "info"]) pristine) in
  FoldStateManager (Some None) = Ok pristine
  /\ localStorage (reset s1) =
     Some (JSON (VObj [("foldState",
                        VObj [("info", folded_node);
                              ("securityDefinitions", fresh_node);
                              ("tags", fresh_node);
                              ("paths", fresh_node);
                              ("definitions", fresh_node)])]))
  /\ localStorage (reset s1) <> Some (JSON defaultState_literal).
Proof. repeat split. discriminate. Qed.

(** What [reset()] does in every state: it stores the current content of the
    object [defaultState] and touches nothing else. *)
Lemma reset_effect (s : service) :
  localStorage (reset s) = Some (JSON (defaultState s))
  /\ tree (reset s) = tree s
  /\ defaultState (reset s) = defaultState s
  /\ changeListeners (reset s) = changeListeners s
  /\ invoked (reset s) = invoked s.
Proof. destruct s as [d [|t] l ls i]; repeat split. Qed.

(** ** Nodes that exist: where fold, unfold and toggleFold act on the node
    they are given *)

Lemma set_tree_set_tree (t t' : value) (s : service) :
  set_tree t' (set_tree t s) = set_tree t' s.
Proof. destruct s as [d [|t0] l ls i]; reflexivity. Qed.

Lemma tree_invokeChangeListeners (args : arguments) (s : service) :
  tree (invokeChangeListeners args s) = tree s.
Proof. destruct s as [d [|t0] l ls i]; reflexivity. Qed.

(** [changeFold] on a path whose node exists: the marker of that very node is
    written, the tree is stored, the listeners are called with the node and
    the new value. *)
Lemma changeFold_existing (s : service) (p : list string) (v : option bool)
  (fs : list (string * value)) :
  ~ In wildcard p ->
  node_at (tree s) p = Some (VObj fs) ->
  let v' := match v with
            | Some b => b
            | None => negb (to_boolean (assoc marker fs))
            end in
  changeFold p v s =
  Outcome (invokeChangeListeners (NodeAndValue p v')
             (set_tree (update_at p (set_field marker (VBool v')) (tree s)) s))
          (AnArray []) (Ok tt).
Proof.
  intros Hw Hnode v'. unfold changeFold, walkToNode.
  pose proof (walkFrom_existing p (tree s) fs [] Hw Hnode) as Hwalk.
  rewrite app_nil_r in Hwalk. rewrite Hwalk. simpl.
  rewrite app_nil_r, (update_at_id p _ _ Hnode), set_tree_tree.
  unfold read_marker, write_marker. rewrite Hnode. reflexivity.
Qed.

(** On a node that exists, [fold] then [isFolded] answers [true] and [unfold]
    then [isFolded] answers [false]. *)
Lemma fold_then_isFolded_existing (s : service) (p : list string)
  (fs : list (string * value)) :
  ~ In wildcard p ->
  node_at (tree s) p = Some (VObj fs) ->
  o_ret (isFolded (AnArray p) (o_service (fold (AnArray p) s))) =
  Ok (Some (VBool true))
  /\ o_ret (isFolded (AnArray p) (o_service (unfold (AnArray p) s))) =
     Ok (Some (VBool false)).
Proof.
  intros Hw Hnode.
  assert (Hset : forall b,
             o_ret (isFolded (AnArray p)
                      (o_service (changeFold p (Some b) s))) =
             Ok (Some (VBool b))).
  { intros b.
    pose proof (changeFold_existing s p (Some b) fs Hw Hnode) as Hc.
    cbv zeta in Hc. rewrite Hc. cbn [o_service].
    pose proof (node_at_update_at p (set_field marker (VBool b)) _ _ Hnode)
      as Hnode'.
    cbn [set_field] in Hnode'.
    rewrite (isFolded_existing _ p (put marker (VBool b) fs) Hw).
    - cbn [o_ret]. now rewrite assoc_put_same.
    - now rewrite tree_invokeChangeListeners, tree_set_tree. }
  split; apply Hset.
Qed.

(** On a node that exists and carries a boolean marker, two calls of
    [toggleFold] give the tree back. *)
Lemma toggleFold_twice_existing (s : service) (p : list string)
  (fs : list (string * value)) (b : bool) :
  ~ In wildcard p ->
  node_at (tree s) p = Some (VObj fs) ->
  assoc marker fs = Some (VBool b) ->
  tree (o_service (toggleFold (AnArray p)
                     (o_service (toggleFold (AnArray p) s)))) = tree s.
Proof.
  intros Hw Hnode Hb. unfold toggleFold.
  pose proof (changeFold_existing s p None fs Hw Hnode) as Hc.
  cbv zeta in Hc. rewrite Hc. cbn [o_service]. clear Hc.
  rewrite Hb. cbn [to_boolean truthy].
  pose proof (node_at_update_at p (set_field marker (VBool (negb b)))
                _ _ Hnode) as Hnode'.
  cbn [set_field] in Hnode'.
  match goal with
  | |- tree (o_service (changeFold p None ?s1)) = _ =>
      pose proof (changeFold_existing s1 p None
                    (put marker (VBool (negb b)) fs) Hw) as Hc
  end.
  rewrite tree_invokeChangeListeners, tree_set_tree in Hc.
  specialize (Hc Hnode'). cbv zeta in Hc. rewrite Hc. cbn [o_service].
  rewrite tree_invokeChangeListeners, tree_set_tree.
  rewrite update_at_compose, assoc_put_same. cbn [to_boolean truthy].
  rewrite negb_involutive.
  rewrite <- (update_at_id p (tree s) (VObj fs) Hnode) at 2.
  apply (update_at_ext p _ _ (tree s) (VObj fs) Hnode). cbn [set_field].
  now rewrite put_put, put_assoc_id.
Qed.

(** ** The traversals terminate *)

(** [path.splice(0, -1)] removes nothing. *)
Lemma splice_0_minus_1 {A : Type} (l : list A) : splice l 0 (-1) = ([], l).
Proof. reflexivity. Qed.

Lemma indexOf_found (k : string) (l : list string) :
  In k l ->
  exists pre post,
    l = pre ++ k :: post /\ ~ In k pre /\ indexOf k l = Z.of_nat (length pre).
Proof.
  induction l as [|x l IH]; intros Hin; [destruct Hin|].
  simpl. destruct (String.eqb_spec x k) as [->|Hne].
  - exists [], l. repeat split. intros [].
  - destruct Hin as [->|Hin]; [contradiction|].
    destruct (IH Hin) as (pre & post & -> & Hpre & ->).
    exists (x :: pre), post. repeat split.
    + intros [H|H]; [now apply Hne|now apply Hpre].
    + destruct (Z.ltb_spec (Z.of_nat (length pre)) 0) as [Hlt|Hge]; [lia|].
      simpl length. lia.
Qed.

Lemma slice_from_found (k : string) (pre post : list string) :
  slice_from (pre ++ k :: post) (Z.of_nat (length pre)) = k :: post.
Proof.
  unfold slice_from, clamp_index.
  destruct (Z.ltb_spec (Z.of_nat (length pre)) 0) as [Hlt|Hge]; [lia|].
  rewrite Nat2Z.id, length_app. simpl length.
  replace (Nat.min (length pre) (length pre + S (length post)))
    with (length pre + 0) by lia.
  now rewrite skipn_app, Nat.add_0_r, skipn_all, Nat.sub_diag.
Qed.

Lemma slice_from_1 (k : string) (l : list string) : slice_from (k :: l) 1 = l.
Proof. reflexivity. Qed.

Lemma ends_with_wildcard_In (path : list string) :
  not_ends_with_wildcard path = false -> In wildcard path.
Proof.
  unfold not_ends_with_wildcard, last_of.
  induction path as [|x path IH]; simpl; [discriminate|].
  destruct path as [|y path].
  - simpl. destruct (String.eqb_spec x wildcard) as [->|]; [now left|discriminate].
  - intros H. right. apply IH. exact H.
Qed.

Lemma wildcards_app (l l' : list string) :
  wildcards (l ++ l') = wildcards l + wildcards l'.
Proof. apply count_occ_app. Qed.

(** What is left after the first wildcard has one wildcard less. *)
Lemma wildcards_rest (path : list string) :
  not_ends_with_wildcard path = false ->
  exists tail,
    slice_from path (indexOf wildcard path) = wildcard :: tail
    /\ wildcards tail < wildcards path.
Proof.
  intros Hend.
  destruct (indexOf_found wildcard path (ends_with_wildcard_In _ Hend))
    as (pre & post & -> & _ & ->).
  exists post. split; [apply slice_from_found|].
  rewrite wildcards_app. unfold wildcards. simpl.
  destruct (string_dec wildcard wildcard); [lia|contradiction].
Qed.

Lemma walkFrom_key_returns (t : value) (key : string) (node : ref) :
  w_node (walkFrom t [key]) = Ok node -> wildcards [key] = 0.
Proof.
  unfold wildcards. simpl.
  destruct (String.eqb_spec key wildcard) as [->|Hne]; simpl; [discriminate|].
  intros _. destruct (string_dec key wildcard); [contradiction|reflexivity].
Qed.

Lemma forEach_total
  (body : string -> value -> list string -> option (visited unit))
  (ks : list string) :
  (forall k t p, body k t p <> None) ->
  forall t p, forEach body ks t p <> None.
Proof.
  intros Hbody. induction ks as [|k ks IH]; intros t p; simpl; [discriminate|].
  specialize (Hbody k t p).
  destruct (body k t p) as [[t' p' [u|e]]|]; [apply IH|discriminate|exact Hbody].
Qed.

Lemma every_total
  (body : string -> value -> list string -> option (visited bool))
  (ks : list string) :
  (forall k t p, body k t p <> None) ->
  forall t p, every body ks t p <> None.
Proof.
  intros Hbody. induction ks as [|k ks IH]; intros t p; simpl; [discriminate|].
  specialize (Hbody k t p).
  destruct (body k t p) as [[t' p' [[|]|e]]|];
    [apply IH|discriminate|discriminate|exact Hbody].
Qed.

(** The fuel [visit] starts with is enough. *)
Lemma visit_fuel_total (fn : ref -> value -> value * result unit) (fuel : nat) :
  forall (path : list string) (t : value),
    wildcards path < fuel -> visit_fuel fuel fn path t <> None.
Proof.
  induction fuel as [|fuel IH]; intros path t Hfuel; [lia|].
  cbn [visit_fuel]. destruct (not_ends_with_wildcard path) eqn:Hend.
  - destruct (w_node (walkToNode t path)); [|discriminate].
    destruct (to_boolean _); [|discriminate].
    destruct (fn _ _). discriminate.
  - destruct (wildcards_rest path Hend) as (tail & -> & Htail).
    set (w := walkToNode t (slice path 0 (indexOf wildcard path))).
    destruct (w_node w) as [root|e] eqn:Hroot; [|discriminate].
    destruct (negb _); [discriminate|].
    apply forEach_total. intros k t0 p0.
    destruct (k =? marker)%string; [discriminate|].
    rewrite splice_0_minus_1. simpl app.
    destruct (w_node (walkToNode t0 [k])) as [node|e] eqn:Hk; [|discriminate].
    simpl is_single_wildcard. destruct tail as [|x tail'].
    + destruct (fn _ _). discriminate.
    + match goal with
      | |- context [visit_fuel fuel fn ?np ?t1] =>
          pose proof (IH np t1) as Hrec;
          destruct (visit_fuel fuel fn np t1); [discriminate|]
      end.
      exfalso. apply Hrec; [|reflexivity].
      unfold w, walkToNode in *.
      rewrite (walkFrom_returns_empty _ _ _ Hroot).
      rewrite slice_from_1. simpl app.
      change (k :: x :: tail') with ([k] ++ x :: tail').
      rewrite wildcards_app, (walkFrom_key_returns _ _ _ Hk). simpl. lia.
Qed.

Lemma isAllFolded_fuel_total (fuel : nat) :
  forall (path : list string) (t : value),
    wildcards path < fuel -> isAllFolded_fuel fuel path t <> None.
Proof.
  induction fuel as [|fuel IH]; intros path t Hfuel; [lia|].
  cbn [isAllFolded_fuel].
  destruct (not_ends_with_wildcard path) eqn:Hend; [discriminate|].
  destruct (wildcards_rest path Hend) as (tail & -> & Htail).
  set (w := walkToNode t (slice path 0 (indexOf wildcard path))).
  destruct (w_node w) as [root|e] eqn:Hroot; [|discriminate].
  destruct (negb _); [discriminate|].
  apply every_total. intros k t0 p0.
  destruct (k =? marker)%string; [discriminate|].
  rewrite splice_0_minus_1. simpl app.
  destruct (w_node (walkToNode t0 [k])) as [node|e] eqn:Hk; [|discriminate].
  destruct (negb _); [discriminate|].
  simpl is_single_wildcard. destruct tail as [|x tail'].
  - discriminate.
  - match goal with
    | |- context [isAllFolded_fuel fuel ?np ?t1] =>
        pose proof (IH np t1) as Hrec;
        destruct (isAllFolded_fuel fuel np t1); [discriminate|]
    end.
    exfalso. apply Hrec; [|reflexivity].
    unfold w, walkToNode in *.
    rewrite (walkFrom_returns_empty _ _ _ Hroot).
    rewrite slice_from_1. simpl app.
    change (k :: x :: tail') with ([k] ++ x :: tail').
    rewrite wildcards_app, (walkFrom_key_returns _ _ _ Hk). simpl. lia.
Qed.

(** [toggleFoldAll] and [isAllFolded] always come back, with a value or an
    error. *)
Lemma toggleFoldAll_total (path : argument) (s : service) :
  exists o, toggleFoldAll path s = Some o.
Proof.
  destruct path as [p|x]; simpl; [|eauto].
  pose proof (visit_fuel_total toggle_node (S (wildcards p)) p (tree s)
                (Nat.lt_succ_diag_r _)) as H.
  unfold visit. destruct (visit_fuel _ _ _ _) as [v|]; [|contradiction].
  destruct (v_ret v); eauto.
Qed.

Lemma isAllFolded_total (path : argument) (s : service) :
  exists o, isAllFolded path s = Some o.
Proof.
  destruct path as [p|x]; simpl; [|eauto].
  pose proof (isAllFolded_fuel_total (S (wildcards p)) p (tree s)
                (Nat.lt_succ_diag_r _)) as H.
  unfold isAllFolded_tree. destruct (isAllFolded_fuel _ _ _) as [v|];
    [eauto|contradiction].
Qed.

(** A [toggleFoldAll] that returns has stored the tree and called every
    listener once, without arguments. *)
Lemma toggleFoldAll_notifies_once (p : list string) (s : service)
  (o : outcome unit) :
  toggleFoldAll (AnArray p) s = Some o ->
  o_ret o = Ok tt ->
  invoked (o_service o) =
  invoked s ++ map (fun fn => (fn, NoArguments)) (changeListeners s)
  /\ changeListeners (o_service o) = changeListeners s
  /\ localStorage (o_service o) = Some (JSON (tree (o_service o))).
Proof.
  unfold toggleFoldAll. destruct (visit toggle_node p (tree s)) as [v|];
    [|discriminate].
  destruct (v_ret v); intros [= <-]; simpl; [|discriminate].
  intros _. destruct s as [d [|t0] l ls i]; repeat split.
Qed.

(** * Further properties of the service *)

(** ** What a walk keeps *)

(** A walk along keys other than the marker key never removes a node and never
    changes the marker of a node that was there. *)
Lemma walkFrom_keeps_nodes (path : list string) :
  forall (t : value) (r : ref) (fs : list (string * value)),
    ~ In marker path ->
    node_at t r = Some (VObj fs) ->
    exists fs',
      node_at (w_tree (walkFrom t path)) r = Some (VObj fs')
      /\ assoc marker fs' = assoc marker fs.
Proof.
  induction path as [|key path IH]; intros t r fs Hm Hr; [simpl; eauto|].
  assert (Hkm : key <> marker) by (intros ->; apply Hm; now left).
  assert (Hm' : ~ In marker path) by (intros H; apply Hm; now right).
  simpl. destruct (key =? wildcard)%string; [simpl; eauto|].
  destruct t as [| |fs0]; [simpl; eauto..|].
  assert (Hcreate :
            to_boolean (assoc key fs0) = false ->
            exists fs',
              node_at (w_tree (walkFrom (VObj (put key fresh_node fs0)) path)) r
              = Some (VObj fs')
              /\ assoc marker fs' = assoc marker fs).
  { intros Hmiss.
    assert (Hput : exists fs1,
               node_at (VObj (put key fresh_node fs0)) r = Some (VObj fs1)
               /\ assoc marker fs1 = assoc marker fs).
    { destruct r as [|k r'].
      - injection Hr as <-. eexists. split; [reflexivity|].
        apply assoc_put_other. intros H. now apply Hkm.
      - simpl in *. destruct (String.eqb_spec k key) as [->|Hne].
        + destruct (assoc key fs0) as [c0|]; [|discriminate].
          simpl in Hmiss. rewrite (node_at_object_truthy _ _ _ Hr) in Hmiss.
          discriminate.
        + rewrite assoc_put_other by exact Hne. eauto. }
    destruct Hput as (fs1 & Hr1 & Hm1).
    destruct (IH _ r fs1 Hm' Hr1) as (fs' & Hr' & Hm2).
    exists fs'. split; [exact Hr'|congruence]. }
  destruct (assoc key fs0) as [child|] eqn:Hk; [|now apply Hcreate].
  destruct (truthy child) eqn:Ht; [|now apply Hcreate].
  simpl. destruct r as [|k r'].
  - injection Hr as <-. eexists. split; [reflexivity|].
    apply assoc_put_other. intros H. now apply Hkm.
  - simpl in *. destruct (String.eqb_spec k key) as [->|Hne].
    + rewrite assoc_put_same. rewrite Hk in Hr. now apply IH.
    + rewrite assoc_put_other by exact Hne. eauto.
Qed.

(** A walk from a truthy root returns a truthy node: the [if (node)] tests of
    [changeFold], [isFolded] and [visit] never fail. *)
Lemma walkFrom_returns_truthy (path : list string) :
  forall (t : value) (node : ref),
    truthy t = true ->
    w_node (walkFrom t path) = Ok node ->
    to_boolean (node_at (w_tree (walkFrom t path)) node) = true.
Proof.
  induction path as [|key path IH]; intros t node Ht; simpl.
  - now intros [= <-].
  - destruct (key =? wildcard)%string; simpl; [discriminate|].
    destruct t as [| |fs]; simpl; try discriminate.
    destruct (assoc key fs) as [child|] eqn:Hk;
      [destruct (truthy child) eqn:Hc|]; try (now apply IH).
    simpl. destruct (w_node (walkFrom child path)) as [n|e] eqn:Hn; simpl;
      [|discriminate].
    intros [= <-]. simpl. rewrite assoc_put_same. now apply IH.
Qed.

(** The node a walk returns is spelled with keys of the path. *)
Lemma walkFrom_node_incl (path : list string) :
  forall (t : value) (node : ref),
    w_node (walkFrom t path) = Ok node -> incl node path.
Proof.
  induction path as [|key path IH]; intros t node; simpl.
  - intros [= <-]. apply incl_refl.
  - destruct (key =? wildcard)%string; simpl; [discriminate|].
    destruct t as [| |fs]; simpl; try discriminate.
    destruct (assoc key fs) as [child|];
      [destruct (truthy child)|];
      try (intros H; apply incl_tl; exact (IH _ _ H)).
    simpl. destruct (w_node (walkFrom child path)) as [n|e] eqn:Hn; simpl;
      [|discriminate].
    intros [= <-]. apply incl_cons; [now left|].
    apply incl_tl. exact (IH _ _ Hn).
Qed.

(** A path with a wildcard in it is never walked to the end. *)
Lemma walkFrom_wildcard_raises (path : list string) :
  forall t : value,
    In wildcard path ->
    w_node (walkFrom t path) = Raise WildcardKey
    \/ w_node (walkFrom t path) = Raise PrimitiveProperty.
Proof.
  induction path as [|key path IH]; intros t Hin; [destruct Hin|].
  simpl. destruct (String.eqb_spec key wildcard) as [->|Hne]; [now left|].
  destruct Hin as [->|Hin]; [contradiction|].
  destruct t as [| |fs]; simpl; [now right..|].
  destruct (assoc key fs) as [child|];
    [destruct (truthy child)|]; try (now apply IH).
  simpl. destruct (IH child Hin) as [-> | ->]; simpl; auto.
Qed.

Lemma update_at_object (r : ref) (k : string) (x : value)
  (fs : list (string * value)) :
  exists fs', update_at r (set_field k x) (VObj fs) = VObj fs'.
Proof.
  destruct r as [|k0 r]; simpl; [eauto|].
  destruct (assoc k0 fs); eauto.
Qed.

Lemma forallb_put (P : string * value -> bool) (k : string) (x : value)
  (fs : list (string * value)) :
  forallb P fs = true -> P (k, x) = true -> forallb P (put k x fs) = true.
Proof.
  intros Hall Hx. induction fs as [|[k' v] fs IH]; simpl in *.
  - now rewrite Hx.
  - apply andb_prop in Hall as [Hv Hall].
    destruct (k =? k')%string; simpl.
    + now rewrite Hx, Hall.
    + now rewrite Hv, IH.
Qed.



Lemma node_at_object_root (t : value) (r : ref) (fs : list (string * value)) :
  node_at t r = Some (VObj fs) -> exists fs0, t = VObj fs0.
Proof.
  destruct r, t; simpl; intros H; try discriminate; eauto.
Qed.

Lemma localStorage_set_tree (t : value) (s : service) :
  localStorage (set_tree t s) = localStorage s
  /\ changeListeners (set_tree t s) = changeListeners s
  /\ invoked (set_tree t s) = invoked s.
Proof. destruct s as [d [|t0] l ls i]; repeat split. Qed.

(** What a [changeFold] that returns has done, spelled out. *)
Lemma changeFold_returns (s : service) (p : list string) (v : option bool)
  (u : unit) :
  truthy (tree s) = true ->
  o_ret (changeFold p v s) = Ok u ->
  exists node fs b,
    w_node (walkToNode (tree s) p) = Ok node
    /\ node_at (w_tree (walkToNode (tree s) p)) node = Some (VObj fs)
    /\ b = match v with
           | Some x => x
           | None => negb (to_boolean (assoc marker fs))
           end
    /\ o_service (changeFold p v s) =
       invokeChangeListeners (NodeAndValue node b)
         (set_tree (update_at node (set_field marker (VBool b))
                      (w_tree (walkToNode (tree s) p))) s).
Proof.
  intros Ht. unfold changeFold.
  pose proof (walkFrom_returns_truthy p (tree s)) as Htruthy.
  unfold walkToNode in *.
  destruct (w_node (walkFrom (tree s) p)) as [node|e] eqn:Hn; simpl;
    [|discriminate].
  rewrite (Htruthy node Ht eq_refl).
  unfold write_marker, read_marker.
  destruct (node_at (w_tree (walkFrom (tree s) p)) node) as [[| |fs]|] eqn:Hnode;
    simpl; try discriminate.
  intros _. exists node, fs.
  exists (match v with
          | Some x => x
          | None => negb (to_boolean (assoc marker fs))
          end).
  repeat (split; [reflexivity|]).
  destruct v; simpl; now rewrite set_tree_set_tree.
Qed.



(** X2.  Round trip through the storage: after a [changeFold] that returned,
    a service constructed on the storage it left starts from the very tree
    the first service holds. *)
Theorem changeFold_then_reload (s : service) (p : list string)
  (v : option bool) (u : unit) :
  truthy (tree s) = true ->
  o_ret (changeFold p v s) = Ok u ->
  let s' := o_service (changeFold p v s) in
  exists s2,
    FoldStateManager (Some (localStorage s')) = Ok s2
    /\ foldState s2 = Parsed (tree s')
    /\ changeListeners s2 = [].
Proof.
  intros Ht Hret s'.
  destruct (changeFold_returns s p v u Ht Hret)
    as (node & fs & b & Hn & Hnode & Hb & Hs).
  subst s'. rewrite Hs.
  cbn [invokeChangeListeners localStorage setItem JSON_stringify].
  rewrite tree_set_tree.
  destruct (node_at_object_root _ _ _ Hnode) as [fs0 Hroot]. rewrite Hroot.
  destruct (update_at_object node marker (VBool b) fs0) as [fs1 ->].
  rewrite tree_invokeChangeListeners, tree_set_tree.
  simpl. eexists. repeat split.
Qed.

Lemma changeFold_then_reload_witness :
  exists s2,
    FoldStateManager
      (Some (localStorage (o_service (changeFold ["paths"] None
                                        (loaded petstore))))) = Ok s2
    /\ foldState s2 =
       Parsed (tree (o_service (changeFold ["paths"] None (loaded petstore))))
    /\ changeListeners s2 = [].
Proof.
  exact (changeFold_then_reload (loaded petstore) ["paths"] None tt
           eq_refl eq_refl).
Defined.

(** X3.  A wildcard anywhere in the array given to [fold], [unfold],
    [toggleFold] or [isFolded] makes the call raise; nothing is stored, no
    listener is called and the listener set is as before (nodes created
    before the wildcard was reached stay in the tree). *)
Theorem wildcard_in_single_node_path (s : service) (p : list string)
  (v : option bool) :
  In wildcard p ->
  (exists e, o_ret (changeFold p v s) = Raise e
             /\ (e = WildcardKey \/ e = PrimitiveProperty))
  /\ (exists e, o_ret (isFolded (AnArray p) s) = Raise e
                /\ (e = WildcardKey \/ e = PrimitiveProperty))
  /\ localStorage (o_service (changeFold p v s)) = localStorage s
  /\ invoked (o_service (changeFold p v s)) = invoked s
  /\ changeListeners (o_service (changeFold p v s)) = changeListeners s
  /\ localStorage (o_service (isFolded (AnArray p) s)) = localStorage s
  /\ invoked (o_service (isFolded (AnArray p) s)) = invoked s.
Proof.
  intros Hin. unfold changeFold, isFolded, walkToNode.
  destruct (localStorage_set_tree (w_tree (walkFrom (tree s) p)) s)
    as (Hl & Hc & Hi).
  destruct (walkFrom_wildcard_raises p (tree s) Hin) as [-> | ->]; simpl;
    repeat split; eauto.
Qed.

Lemma wildcard_in_single_node_path_witness :
  exists e, o_ret (changeFold ["paths"; "*"] (Some true) (loaded petstore))
            = Raise e
            /\ (e = WildcardKey \/ e = PrimitiveProperty).
Proof.
  refine (proj1 (wildcard_in_single_node_path (loaded petstore)
                   ["paths"; "*"] (Some true) _)).
  simpl. right. left. reflexivity.
Defined.

(** ** Listeners *)

Lemma existsb_eqb_In (fn : listener) (l : list listener) :
  existsb (Nat.eqb fn) l = true <-> In fn l.
Proof.
  rewrite existsb_exists. split.
  - intros (x & Hx & Heq). apply Nat.eqb_eq in Heq. now subst.
  - intros H. exists fn. split; [exact H|apply Nat.eqb_refl].
Qed.

Lemma filter_calls_once (fn : listener) (args : arguments) (l : list listener) :
  NoDup l ->
  In fn l ->
  filter (fun c : listener * arguments => Nat.eqb (fst c) fn)
         (map (fun f => (f, args)) l) = [(fn, args)].
Proof.
  induction l as [|x l IH]; intros Hnd Hin; [destruct Hin|].
  inversion Hnd as [|? ? Hx Hnd']; subst. simpl.
  destruct (Nat.eqb_spec x fn) as [->|Hne].
  - f_equal. clear IH Hin Hnd Hnd'. induction l as [|y l IHl]; [reflexivity|].
    simpl. destruct (Nat.eqb_spec y fn) as [->|Hy].
    + exfalso. apply Hx. now left.
    + apply IHl. intros H. apply Hx. now right.
  - destruct Hin as [->|Hin]; [contradiction|]. now apply IH.
Qed.

(** X4.  [onFoldChanged] keeps a set: registering a listener a second time
    changes nothing, earlier listeners keep their place, and the next
    notification calls the listener exactly once. *)
Theorem onFoldChanged_registers_once (s : service) (fn : listener)
  (args : arguments) :
  NoDup (changeListeners s) ->
  let s' := onFoldChanged fn s in
  onFoldChanged fn s' = s'
  /\ NoDup (changeListeners s')
  /\ (exists added, changeListeners s' = changeListeners s ++ added)
  /\ exists calls,
      invoked (invokeChangeListeners args s') = invoked s ++ calls
      /\ filter (fun c : listener * arguments => Nat.eqb (fst c) fn) calls
         = [(fn, args)].
Proof.
  intros Hnd s'.
  assert (Hin : In fn (changeListeners s')).
  { subst s'. unfold onFoldChanged.
    destruct (existsb (Nat.eqb fn) (changeListeners s)) eqn:He.
    - now apply existsb_eqb_In.
    - simpl. apply in_or_app. right. now left. }
  assert (Hnd' : NoDup (changeListeners s')).
  { subst s'. unfold onFoldChanged.
    destruct (existsb (Nat.eqb fn) (changeListeners s)) eqn:He; [exact Hnd|].
    simpl. apply NoDup_app; [exact Hnd|repeat constructor; intros []|].
    intros x Hx [<-|[]]. apply existsb_eqb_In in Hx. congruence. }
  repeat split.
  - unfold onFoldChanged at 1.
    now rewrite (proj2 (existsb_eqb_In fn (changeListeners s')) Hin).
  - exact Hnd'.
  - subst s'. unfold onFoldChanged.
    destruct (existsb (Nat.eqb fn) (changeListeners s)).
    + exists []. now rewrite app_nil_r.
    + now exists [fn].
  - exists (map (fun f => (f, args)) (changeListeners s')). split.
    + subst s'. unfold onFoldChanged.
      destruct (existsb (Nat.eqb fn) (changeListeners s)); reflexivity.
    + now apply filter_calls_once.
Qed.

Lemma onFoldChanged_registers_once_witness :
  onFoldChanged 2 (onFoldChanged 2 (loaded petstore)) =
  onFoldChanged 2 (loaded petstore).
Proof.
  refine (proj1 (onFoldChanged_registers_once (loaded petstore) 2
                   NoArguments _)).
  simpl. repeat constructor; simpl; intros H; repeat destruct H as [H|H];
    try discriminate H; exact H.
Defined.

(** ** The tree shape is kept *)



(** ** What is never lost *)

(** X6.  [isFolded] may add nodes but it never removes one and never changes
    a marker: every node of the tree is still there afterwards, with the
    marker it had, whether the call returns or raises. *)
Theorem isFolded_keeps_existing_nodes (s : service) (p : list string)
  (r : ref) (fs : list (string * value)) :
  ~ In marker p ->
  node_at (tree s) r = Some (VObj fs) ->
  exists fs',
    node_at (tree (o_service (isFolded (AnArray p) s))) r = Some (VObj fs')
    /\ assoc marker fs' = assoc marker fs.
Proof.
  intros Hm Hr.
  destruct (walkFrom_keeps_nodes p (tree s) r fs Hm Hr) as (fs' & Hr' & Hm').
  exists fs'. split; [|exact Hm'].
  unfold isFolded, walkToNode.
  destruct (w_node (walkFrom (tree s) p)); [destruct (to_boolean _)|];
    simpl; now rewrite tree_set_tree.
Qed.

Lemma isFolded_keeps_existing_nodes_witness :
  exists fs',
    node_at (tree (o_service (isFolded (AnArray ["paths"; "/pets"; "get"])
                                (loaded marked_tree)))) ["paths"]
    = Some (VObj fs')
    /\ assoc marker fs' = Some (VBool true).
Proof.
  refine (isFolded_keeps_existing_nodes (loaded marked_tree)
            ["paths"; "/pets"; "get"] ["paths"] [(marker, VBool true)] _
            eq_refl).
  simpl. intros [H|[H|[H|[]]]]; discriminate H.
Defined.

(** Writing the marker of one node leaves every other node, and its marker,
    in place. *)
Lemma write_marker_frame (node : ref) :
  forall (t : value) (x : value) (r : ref) (fs : list (string * value)),
    ~ In marker node ->
    ~ In marker r ->
    r <> node ->
    node_at t r = Some (VObj fs) ->
    exists fs',
      node_at (update_at node (set_field marker x) t) r = Some (VObj fs')
      /\ assoc marker fs' = assoc marker fs.
Proof.
  induction node as [|k0 node IH]; intros t x r fs Hn Hr Hne Hnode.
  - destruct r as [|k r']; [contradiction|].
    simpl in *. destruct t as [| |fs0]; try discriminate. simpl.
    rewrite assoc_put_other; [eauto|].
    intros ->. apply Hr. now left.
  - simpl. destruct t as [| |fs0]; [eauto..|].
    destruct (assoc k0 fs0) as [c|] eqn:Hk0; [|eauto].
    assert (Hk0m : k0 <> marker) by (intros ->; apply Hn; now left).
    destruct r as [|k r'].
    + injection Hnode as <-. simpl. eexists. split; [reflexivity|].
      apply assoc_put_other. intros H. now apply Hk0m.
    + simpl in *. destruct (String.eqb_spec k k0) as [->|Hkne].
      * rewrite assoc_put_same. rewrite Hk0 in Hnode.
        apply IH; trivial.
        -- intros H. apply Hn. now right.
        -- intros H. apply Hr. now right.
        -- intros ->. now apply Hne.
      * rewrite assoc_put_other by exact Hkne. eauto.
Qed.

(** X7.  A [changeFold] that returns changes the marker of one node only:
    every node [r] of the tree other than the node the listeners are told
    about is still there with the marker it had. *)
Theorem changeFold_changes_one_marker (s : service) (p : list string)
  (v : option bool) (u : unit) :
  truthy (tree s) = true ->
  ~ In marker p ->
  o_ret (changeFold p v s) = Ok u ->
  let s' := o_service (changeFold p v s) in
  exists node b,
    invoked s' =
    invoked s ++ map (fun fn => (fn, NodeAndValue node b)) (changeListeners s)
    /\ forall (r : ref) (fs : list (string * value)),
        ~ In marker r ->
        r <> node ->
        node_at (tree s) r = Some (VObj fs) ->
        exists fs',
          node_at (tree s') r = Some (VObj fs')
          /\ assoc marker fs' = assoc marker fs.
Proof.
  intros Ht Hm Hret s'.
  destruct (changeFold_returns s p v u Ht Hret)
    as (node & fs0 & b & Hn & Hnode & Hb & Hs).
  subst s'. rewrite Hs. exists node, b.
  destruct (localStorage_set_tree
              (update_at node (set_field marker (VBool b))
                 (w_tree (walkToNode (tree s) p))) s) as (_ & Hl & Hi).
  cbn [invokeChangeListeners invoked]. rewrite Hl, Hi.
  split; [reflexivity|].
  intros r fs Hr Hne Hnr.
  rewrite tree_invokeChangeListeners, tree_set_tree.
  destruct (walkFrom_keeps_nodes p (tree s) r fs Hm Hnr) as (fs1 & Hr1 & Hm1).
  assert (Hnm : ~ In marker node).
  { intros H. apply Hm. exact (walkFrom_node_incl p (tree s) node Hn _ H). }
  destruct (write_marker_frame node _ (VBool b) r fs1 Hnm Hr Hne Hr1)
    as (fs' & Hr' & Hm').
  exists fs'. split; [exact Hr'|congruence].
Qed.

Lemma changeFold_changes_one_marker_witness :
  exists node b,
    invoked (o_service (changeFold ["paths"; "/pets"] (Some false)
                          (loaded marked_tree))) =
    invoked (loaded marked_tree)
    ++ map (fun fn => (fn, NodeAndValue node b))
           (changeListeners (loaded marked_tree)).
Proof.
  assert (Hm : ~ In marker ["paths"; "/pets"]).
  { simpl. intros [H|[H|[]]]; discriminate H. }
  destruct (changeFold_changes_one_marker (loaded marked_tree)
              ["paths"; "/pets"] (Some false) tt eq_refl Hm eq_refl)
    as (node & b & Hi & _).
  exists node, b. exact Hi.
Defined.

(** ** The object [defaultState] over a session *)

Lemma set_tree_separate (t : value) (s : service) :
  separate s -> separate (set_tree t s).
Proof.
  destruct s as [d [|t0] l ls i]; intros [[t1 H1] H2]; simpl in *;
    [discriminate|].
  split; [now exists t|exact H2].
Qed.

Lemma set_tree_aliased (t : value) (s : service) :
  aliased s -> aliased (set_tree t s).
Proof.
  destruct s as [d [|t0] l ls i]; unfold aliased; simpl; congruence.
Qed.

Lemma invokeChangeListeners_kind (args : arguments) (s : service) :
  (separate s -> separate (invokeChangeListeners args s))
  /\ (aliased s -> aliased (invokeChangeListeners args s)).
Proof. split; intros H; exact H. Qed.

Lemma changeFold_kind (p : list string) (v : option bool) (s : service) :
  (separate s -> separate (o_service (changeFold p v s)))
  /\ (aliased s -> aliased (o_service (changeFold p v s))).
Proof.
  unfold changeFold.
  destruct (w_node _); [destruct (to_boolean _); [destruct (write_marker _ _ _)|]|];
    simpl; split; intros H;
    repeat first [ apply set_tree_separate | apply set_tree_aliased
                 | apply (proj1 (invokeChangeListeners_kind _ _))
                 | apply (proj2 (invokeChangeListeners_kind _ _)) ];
    exact H.
Qed.

Lemma after_call_kind (c : call) (s : service) :
  (separate s -> separate (after_call c s))
  /\ (aliased s -> aliased (after_call c s)).
Proof.
  destruct c as [a|a|a|a|a|a|fn|]; simpl.
  - destruct a; simpl; [apply changeFold_kind|tauto].
  - destruct a; simpl; [apply changeFold_kind|tauto].
  - destruct a; simpl; [apply changeFold_kind|tauto].
  - destruct a as [p|x]; simpl; [|tauto].
    destruct (visit toggle_node p (tree s)) as [v|]; [|tauto].
    destruct (v_ret v); simpl; split; intros H;
      first [ now apply set_tree_separate | now apply set_tree_aliased ].
  - destruct a as [p|x]; simpl; [|tauto].
    destruct (w_node _); [destruct (to_boolean _)|]; simpl; split; intros H;
      first [ now apply set_tree_separate | now apply set_tree_aliased ].
  - destruct a as [p|x]; simpl; [|tauto].
    destruct (isAllFolded_tree p (tree s)) as [v|]; [|tauto].
    simpl; split; intros H;
      first [ now apply set_tree_separate | now apply set_tree_aliased ].
  - unfold onFoldChanged. destruct (existsb _ _); tauto.
  - tauto.
Qed.

Lemma after_calls_kind (cs : list call) :
  forall s : service,
    (separate s -> separate (after_calls cs s))
    /\ (aliased s -> aliased (after_calls cs s)).
Proof.
  induction cs as [|c cs IH]; intros s; [simpl; tauto|].
  simpl. destruct (after_call_kind c s) as [H1 H2].
  destruct (IH (after_call c s)) as [H3 H4]. tauto.
Qed.

(** X8.  What [reset()] stores at the end of a session.  If the service was
    constructed on a storage holding a truthy tree, then after any calls
    whatever [reset()] stores the pristine default tree.  If it was
    constructed on a storage without the key, or with a falsy value, then
    after any calls [reset()] stores the tree the service holds at that
    moment, the object [defaultState] being that tree. *)
Theorem reset_after_session (ls : Storage) (s0 : service) (cs : list call) :
  FoldStateManager (Some ls) = Ok s0 ->
  let s := after_calls cs s0 in
  ((exists t, getItem ls = Some (JSON t) /\ truthy t = true) ->
   localStorage (reset s) = Some (JSON defaultState_literal))
  /\ (getItem ls = None \/ (exists t, getItem ls = Some (JSON t)
                                      /\ truthy t = false) ->
      localStorage (reset s) = Some (JSON (tree s))).
Proof.
  intros Hc s. destruct (after_calls_kind cs s0) as [Hsep Hal].
  fold s in Hsep, Hal. split.
  - intros (t & Hls & Ht).
    assert (Hs0 : separate s0).
    { unfold getItem in Hls. subst ls. simpl in Hc. rewrite Ht in Hc.
      injection Hc as <-. split; [now exists t|reflexivity]. }
    destruct (Hsep Hs0) as [_ Hd]. simpl. now rewrite Hd.
  - intros Hls.
    assert (Ha : aliased s0).
    { destruct Hls as [Hls|(t & Hls & Ht)]; unfold getItem in Hls; subst ls;
        simpl in Hc; [|rewrite Ht in Hc]; injection Hc as <-; reflexivity. }
    specialize (Hal Ha). unfold aliased in Hal.
    simpl. unfold tree. now rewrite Hal.
Qed.

Lemma reset_after_session_witness :
  localStorage (reset (after_calls [CallFold (AnArray ["paths"; "/pets"]);
                                    CallToggleFoldAll (AnArray ["*"])]
                         (Service defaultState_literal (Parsed petstore) []
                                  (Some (JSON petstore)) []))) =
  Some (JSON defaultState_literal).
Proof.
  refine (proj1 (reset_after_session (Some (JSON petstore)) _ _ eq_refl) _).
  exists petstore. split; reflexivity.
Defined.

(** ** The bulk operations on their edge inputs *)

(** X9.  On an array that does not end with the wildcard (the empty array
    included), [toggleFoldAll] is [toggleFold]: same error or return, same
    tree, same emptied array; only the listeners are called without
    arguments. *)
Theorem toggleFoldAll_single_node (s : service) (p : list string) :
  not_ends_with_wildcard p = true ->
  exists o,
    toggleFoldAll (AnArray p) s = Some o
    /\ o_ret o = o_ret (toggleFold (AnArray p) s)
    /\ o_arg o = o_arg (toggleFold (AnArray p) s)
    /\ tree (o_service o) = tree (o_service (toggleFold (AnArray p) s))
    /\ (o_ret o = Ok tt ->
        invoked (o_service o) =
        invoked s ++ map (fun fn => (fn, NoArguments)) (changeListeners s)).
Proof.
  intros Hend. unfold toggleFoldAll, toggleFold, changeFold, visit.
  cbn [visit_fuel]. rewrite Hend.
  destruct (localStorage_set_tree (w_tree (walkToNode (tree s) p)) s)
    as (_ & Hl & Hi).
  destruct (w_node (walkToNode (tree s) p)) as [node|e]; cbn -[walkToNode].
  - destruct (to_boolean (node_at (w_tree (walkToNode (tree s) p)) node)).
    + unfold toggle_node.
      destruct (write_marker node _ (w_tree (walkToNode (tree s) p)))
        as [t'|e]; cbn -[walkToNode]; eexists; repeat split;
        cbn [o_service o_ret o_arg];
        rewrite ?tree_invokeChangeListeners, ?tree_set_tree; try reflexivity;
        try discriminate.
      intros _. destruct (localStorage_set_tree t' s) as (_ & Hl' & Hi').
      cbn [invokeChangeListeners invoked v_tree]. now rewrite Hl', Hi'.
    + eexists; repeat split; cbn [o_service o_ret o_arg];
        rewrite ?tree_invokeChangeListeners, ?tree_set_tree; try reflexivity.
      intros _. cbn [invokeChangeListeners invoked v_tree]. now rewrite Hl, Hi.
  - eexists; repeat split; try reflexivity. discriminate.
Qed.

Lemma toggleFoldAll_single_node_witness :
  exists o,
    toggleFoldAll (AnArray ["paths"]) (loaded petstore) = Some o
    /\ o_ret o = o_ret (toggleFold (AnArray ["paths"]) (loaded petstore)).
Proof.
  destruct (toggleFoldAll_single_node (loaded petstore) ["paths"] eq_refl)
    as (o & Ho & Hr & _).
  exists o. split; [exact Ho|exact Hr].
Defined.

Lemma every_keeps_path
  (body : string -> value -> list string -> option (visited bool))
  (ks : list string) :
  (forall k t p v, body k t p = Some v -> v_path v = p) ->
  forall t p v, every body ks t p = Some v -> v_path v = p.
Proof.
  intros Hbody. induction ks as [|k ks IH]; intros t p v; simpl.
  - now intros [= <-].
  - destruct (body k t p) as [[t' p' [[|]|e]]|] eqn:Hb; try discriminate.
    + intros H. apply IH in H. apply Hbody in Hb. simpl in Hb. congruence.
    + intros [= <-]. exact (Hbody _ _ _ _ Hb).
    + intros [= <-]. exact (Hbody _ _ _ _ Hb).
Qed.

Lemma isAllFolded_fuel_keeps_path (fuel : nat) (path : list string)
  (t : value) (v : visited bool) :
  isAllFolded_fuel fuel path t = Some v -> v_path v = path.
Proof.
  destruct fuel as [|fuel]; [discriminate|]. cbn [isAllFolded_fuel].
  destruct (not_ends_with_wildcard path); [now intros [= <-]|].
  destruct (w_node _) as [root|e]; [|now intros [= <-]].
  destruct (negb _); [now intros [= <-]|].
  apply every_keeps_path. intros k t0 p0 v0.
  destruct (k =? marker)%string; [now intros [= <-]|].
  rewrite splice_0_minus_1.
  destruct (w_node _) as [node|e]; [|now intros [= <-]].
  destruct (negb _); [now intros [= <-]|].
  destruct (is_single_wildcard _); [now intros [= <-]|].
  destruct (isAllFolded_fuel _ _ _); [now intros [= <-]|discriminate].
Qed.

(** X10.  [isAllFolded] is quiet: whatever the array, it leaves the array as
    it was, stores nothing and calls no listener (the tree may gain nodes).
    On an array that does not end with the wildcard it raises
    [Error('Path should end with "*" in this method.')] before touching
    anything. *)
Theorem isAllFolded_is_quiet (s : service) (p : list string)
  (o : outcome bool) :
  isAllFolded (AnArray p) s = Some o ->
  o_arg o = AnArray p
  /\ localStorage (o_service o) = localStorage s
  /\ invoked (o_service o) = invoked s
  /\ changeListeners (o_service o) = changeListeners s
  /\ (not_ends_with_wildcard p = true ->
      o = Outcome s (AnArray p) (Raise PathMustEndWithWildcard)).
Proof.
  unfold isAllFolded, isAllFolded_tree.
  destruct (isAllFolded_fuel (S (wildcards p)) p (tree s)) as [v|] eqn:Hv;
    [|discriminate].
  intros [= <-]. simpl.
  rewrite (isAllFolded_fuel_keeps_path _ _ _ _ Hv).
  destruct (localStorage_set_tree (v_tree v) s) as (Hl & Hc & Hi).
  repeat split; trivial.
  intros Hend. cbn [isAllFolded_fuel] in Hv. rewrite Hend in Hv.
  injection Hv as <-. simpl. now rewrite set_tree_tree.
Qed.

Lemma isAllFolded_is_quiet_witness :
  exists o,
    isAllFolded (AnArray ["paths"]) (loaded petstore) = Some o
    /\ o = Outcome (loaded petstore) (AnArray ["paths"])
                   (Raise PathMustEndWithWildcard).
Proof.
  destruct (isAllFolded_total (AnArray ["paths"]) (loaded petstore))
    as [o Ho].
  exists o. split; [exact Ho|].
  exact (proj2 (proj2 (proj2 (proj2
           (isAllFolded_is_quiet (loaded petstore) ["paths"] o Ho))))
           eq_refl).
Defined.

(** ** Which nodes a wildcard reaches *)

Lemma keeps_markers_refl (depth : nat) (t : value) :
  keeps_markers_from depth t t.
Proof. intros r fs _ _ H. eauto. Qed.

Lemma keeps_markers_trans (depth : nat) (t1 t2 t3 : value) :
  keeps_markers_from depth t1 t2 ->
  keeps_markers_from depth t2 t3 ->
  keeps_markers_from depth t1 t3.
Proof.
  intros H12 H23 r fs Hd Hm Hr.
  destruct (H12 r fs Hd Hm Hr) as (fs2 & Hr2 & Hm2).
  destruct (H23 r fs2 Hd Hm Hr2) as (fs3 & Hr3 & Hm3).
  exists fs3. split; [exact Hr3|congruence].
Qed.

Lemma walkFrom_keeps_markers (depth : nat) (path : list string) (t : value) :
  ~ In marker path ->
  keeps_markers_from depth t (w_tree (walkFrom t path)).
Proof.
  intros Hm r fs _ _ Hr. exact (walkFrom_keeps_nodes path t r fs Hm Hr).
Qed.

Lemma walkFrom_node_length (path : list string) :
  forall (t : value) (node : ref),
    w_node (walkFrom t path) = Ok node -> length node <= length path.
Proof.
  induction path as [|key path IH]; intros t node; simpl.
  - intros [= <-]. simpl. lia.
  - destruct (key =? wildcard)%string; simpl; [discriminate|].
    destruct t as [| |fs]; simpl; try discriminate.
    destruct (assoc key fs) as [child|];
      [destruct (truthy child)|];
      try (intros H; apply IH in H; lia).
    simpl. destruct (w_node (walkFrom child path)) as [n|e] eqn:Hn; simpl;
      [|discriminate].
    intros [= <-]. simpl. apply IH in Hn. lia.
Qed.

(** The callback of [toggleFoldAll] touches the marker of its node only. *)
Lemma toggle_node_keeps_markers (depth : nat) (node : ref) (t : value) :
  length node < depth ->
  ~ In marker node ->
  keeps_markers_from depth t (fst (toggle_node node t)).
Proof.
  intros Hlen Hm. unfold toggle_node, write_marker.
  destruct (node_at t node) as [[| |fs0]|]; simpl;
    try apply keeps_markers_refl.
  intros r fs Hd Hr Hnode.
  apply write_marker_frame; trivial.
  intros ->. lia.
Qed.

Lemma forEach_keeps_markers (depth : nat)
  (body : string -> value -> list string -> option (visited unit))
  (ks : list string) :
  (forall k t p v, body k t p = Some v ->
                   keeps_markers_from depth t (v_tree v)) ->
  forall t p v,
    forEach body ks t p = Some v -> keeps_markers_from depth t (v_tree v).
Proof.
  intros Hbody. induction ks as [|k ks IH]; intros t p v; simpl.
  - intros [= <-]. apply keeps_markers_refl.
  - destruct (body k t p) as [[t' p' [u|e]]|] eqn:Hb; try discriminate.
    + intros H. apply (keeps_markers_trans depth t t').
      * exact (Hbody _ _ _ _ Hb).
      * exact (IH _ _ _ H).
    + intros [= <-]. exact (Hbody _ _ _ _ Hb).
Qed.

Lemma slice_found (k : string) (pre post : list string) :
  slice (pre ++ k :: post) 0 (Z.of_nat (length pre)) = pre.
Proof.
  unfold slice, clamp_index. change (0 <? 0)%Z with false. cbv iota.
  change (Z.to_nat 0) with 0. rewrite Nat.min_0_l, Nat.sub_0_r.
  destruct (Z.ltb_spec (Z.of_nat (length pre)) 0) as [Hlt|Hge]; [lia|].
  rewrite Nat2Z.id, length_app. simpl skipn.
  rewrite Nat.min_l by lia.
  rewrite firstn_app, firstn_all, Nat.sub_diag. simpl. apply app_nil_r.
Qed.

Lemma not_ends_with_wildcard_cons (x y : string) (l : list string) :
  not_ends_with_wildcard (x :: y :: l) = not_ends_with_wildcard (y :: l).
Proof. reflexivity. Qed.

Lemma not_ends_with_wildcard_app (pre : list string) (y : string)
  (l : list string) :
  not_ends_with_wildcard (pre ++ y :: l) = not_ends_with_wildcard (y :: l).
Proof.
  induction pre as [|x pre IH]; [reflexivity|].
  simpl app. destruct pre as [|x' pre'].
  - simpl app. apply not_ends_with_wildcard_cons.
  - simpl app in *. now rewrite not_ends_with_wildcard_cons.
Qed.

(** A traversal of a path that ends with the wildcard hands the callback the
    root or a top-level node only. *)
Lemma visit_fuel_wildcard_keeps_markers (fuel : nat) :
  forall (path : list string) (t : value) (v : visited unit),
    not_ends_with_wildcard path = false ->
    ~ In marker path ->
    visit_fuel fuel toggle_node path t = Some v ->
    keeps_markers_from 2 t (v_tree v).
Proof.
  induction fuel as [|fuel IH]; intros path t v Hend Hm; [discriminate|].
  cbn [visit_fuel]. rewrite Hend.
  destruct (indexOf_found wildcard path (ends_with_wildcard_In _ Hend))
    as (pre & post & Hpath & _ & Hidx).
  rewrite Hidx. subst path. rewrite slice_found, slice_from_found.
  assert (Hpre : ~ In marker pre).
  { intros H. apply Hm. apply in_or_app. now left. }
  assert (Hpost : ~ In marker post).
  { intros H. apply Hm. apply in_or_app. right. now right. }
  pose proof (walkFrom_keeps_markers 2 pre t Hpre) as Hwalk.
  unfold walkToNode at 1 2 3 4 5.
  destruct (w_node (walkFrom t pre)) as [root|e] eqn:Hroot;
    [|now intros [= <-]].
  destruct (negb _); [now intros [= <-]|].
  intros Hloop. apply (keeps_markers_trans 2 t (w_tree (walkFrom t pre)));
    [exact Hwalk|].
  revert Hloop. apply forEach_keeps_markers. intros k t0 p0 v0.
  destruct (String.eqb_spec k marker) as [->|Hk].
  { intros [= <-]. apply keeps_markers_refl. }
  rewrite splice_0_minus_1. change (@nil string ++ [k]) with [k].
  unfold walkToNode.
  assert (Hkm : ~ In marker [k]) by (intros [H|[]]; now apply Hk).
  pose proof (walkFrom_keeps_markers 2 [k] t0 Hkm) as Hwk.
  destruct (w_node (walkFrom t0 [k])) as [node|e] eqn:Hnode;
    [|now intros [= <-]].
  assert (Hnl : length node < 2).
  { apply walkFrom_node_length in Hnode. simpl in Hnode. lia. }
  assert (Hnm : ~ In marker node).
  { intros H. apply Hkm. exact (walkFrom_node_incl _ _ _ Hnode _ H). }
  pose proof (toggle_node_keeps_markers 2 node (w_tree (walkFrom t0 [k]))
                Hnl Hnm) as Htog.
  destruct (is_single_wildcard (wildcard :: post)) eqn:Hsingle.
  - destruct (toggle_node node (w_tree (walkFrom t0 [k]))) as [t' r].
    intros [= <-]. simpl in *.
    exact (keeps_markers_trans 2 _ _ _ Hwk Htog).
  - rewrite (walkFrom_returns_empty _ _ _ Hroot), slice_from_1.
    simpl app.
    destruct (visit_fuel fuel toggle_node (k :: post) (w_tree (walkFrom t0 [k])))
      as [v1|] eqn:Hrec; [|discriminate].
    intros [= <-]. simpl.
    apply (keeps_markers_trans 2 _ _ _ Hwk).
    apply (IH (k :: post) _ v1); trivial.
    + destruct post as [|y post']; [simpl in Hsingle; discriminate|].
      rewrite not_ends_with_wildcard_cons.
      rewrite not_ends_with_wildcard_app in Hend.
      now rewrite not_ends_with_wildcard_cons in Hend.
    + intros [H|H]; [now apply Hk|now apply Hpost].
Qed.

(** X11.  [toggleFoldAll] on an array that ends with the wildcard never
    changes the marker of a node two or more levels below the root, and
    never removes such a node: the nodes its callback gets are the root and
    top-level nodes.  In particular [toggleFoldAll(['paths', '*'])] leaves
    every child of [paths] as it was. *)
Theorem toggleFoldAll_wildcard_spares_deep_nodes (s : service)
  (p : list string) (o : outcome unit) (r : ref)
  (fs : list (string * value)) :
  not_ends_with_wildcard p = false ->
  ~ In marker p ->
  toggleFoldAll (AnArray p) s = Some o ->
  2 <= length r ->
  ~ In marker r ->
  node_at (tree s) r = Some (VObj fs) ->
  exists fs',
    node_at (tree (o_service o)) r = Some (VObj fs')
    /\ assoc marker fs' = assoc marker fs.
Proof.
  intros Hend Hm Ho Hlen Hr Hnode. unfold toggleFoldAll, visit in Ho.
  destruct (visit_fuel (S (wildcards p)) toggle_node p (tree s)) as [v|] eqn:Hv;
    [|discriminate].
  pose proof (visit_fuel_wildcard_keeps_markers _ _ _ _ Hend Hm Hv
                r fs Hlen Hr Hnode) as H.
  destruct (v_ret v); injection Ho as <-; simpl;
    now rewrite ?tree_invokeChangeListeners, tree_set_tree.
Qed.

Lemma toggleFoldAll_wildcard_spares_deep_nodes_witness :
  exists o fs',
    toggleFoldAll (AnArray ["paths"; "*"]) (loaded two_paths) = Some o
    /\ node_at (tree (o_service o)) ["paths"; "/users"] = Some (VObj fs')
    /\ assoc marker fs' = Some (VBool true).
Proof.
  destruct (toggleFoldAll_total (AnArray ["paths"; "*"]) (loaded two_paths))
    as [o Ho].
  assert (Hp : ~ In marker ["paths"; "*"]).
  { simpl. intros [H|[H|[]]]; discriminate H. }
  assert (Hr : ~ In marker ["paths"; "/users"]).
  { simpl. intros [H|[H|[]]]; discriminate H. }
  assert (Hlen : 2 <= length ["paths"; "/users"]) by (simpl; lia).
  destruct (toggleFoldAll_wildcard_spares_deep_nodes (loaded two_paths)
              ["paths"; "*"] o ["paths"; "/users"] [(marker, VBool true)]
              eq_refl Hp Ho Hlen Hr eq_refl) as (fs' & Hn & Hmk).
  exists o, fs'. repeat split; assumption.
Defined.

(** ** The wildcard at the top level *)

Lemma walkFrom_child (fs : list (string * value)) (k : string) (c : value) :
  assoc k fs = Some c ->
  truthy c = true ->
  k <> wildcard ->
  walkFrom (VObj fs) [k] = Walked (VObj fs) [] (Ok [k]).
Proof.
  intros Hk Hc Hne. simpl. apply String.eqb_neq in Hne.
  rewrite Hne, Hk, Hc. simpl. now rewrite put_assoc_id.
Qed.

Lemma In_keys_assoc (k : string) (fs : list (string * value)) :
  In k (keys fs) -> exists c, assoc k fs = Some c.
Proof.
  induction fs as [|[k' v] fs IH]; simpl; [intros []|].
  destruct (String.eqb_spec k k') as [->|Hne]; [eauto|].
  intros [H|H]; [congruence|now apply IH].
Qed.

Lemma keys_put_existing (k : string) (x c : value) (fs : list (string * value)) :
  assoc k fs = Some c -> keys (put k x fs) = keys fs.
Proof.
  induction fs as [|[k' v] fs IH]; simpl; [discriminate|].
  destruct (String.eqb_spec k k') as [->|Hne]; [reflexivity|].
  intros H. simpl. now rewrite IH.
Qed.

Lemma every_pure
  (body : string -> value -> list string -> option (visited bool))
  (f : string -> bool) (t : value) (p : list string) (ks : list string) :
  (forall k, In k ks -> body k t p = Some (Visited t p (Ok (f k)))) ->
  every body ks t p = Some (Visited t p (Ok (forallb f ks))).
Proof.
  induction ks as [|k ks IH]; intros Hbody; [reflexivity|].
  simpl. rewrite (Hbody k (or_introl eq_refl)).
  destruct (f k); [|reflexivity].
  apply IH. intros k' Hk'. apply Hbody. now right.
Qed.

(** X12.  At the top level the wildcard works as a query: on a tree whose
    entries are all truthy, [isAllFolded(['*'])] returns whether every
    top-level node is unfolded (has a falsy [$folded]), the marker entry of
    the root being skipped, and it changes nothing at all. *)
Theorem isAllFolded_top_level (s : service) (fs : list (string * value)) :
  tree s = VObj fs ->
  ~ In wildcard (keys fs) ->
  (forall k, In k (keys fs) -> k <> marker -> to_boolean (assoc k fs) = true) ->
  isAllFolded (AnArray ["*"]) s =
  Some (Outcome s (AnArray ["*"])
          (Ok (forallb
                 (fun k => (k =? marker)%string
                           || negb (to_boolean (read_marker (VObj fs) [k])))
                 (keys fs)))).
Proof.
  intros Htree Hw Hchildren. unfold isAllFolded, isAllFolded_tree.
  rewrite Htree. change (wildcards ["*"]) with 1. cbn [isAllFolded_fuel].
  change (not_ends_with_wildcard ["*"]) with false. cbv iota.
  change (indexOf wildcard ["*"]) with 0%Z.
  change (slice ["*"] 0 0) with (@nil string).
  change (slice_from ["*"] 0) with ["*"].
  change (walkToNode (VObj fs) []) with (Walked (VObj fs) [] (Ok [])).
  cbn [w_node w_tree w_path isObject_at node_at isObject negb keys_at].
  rewrite (every_pure _
             (fun k => (k =? marker)%string
                       || negb (to_boolean (read_marker (VObj fs) [k])))).
  - cbn [v_tree v_path v_ret].
    replace (set_tree (VObj fs) s) with s; [reflexivity|].
    rewrite <- Htree. symmetry. apply set_tree_tree.
  - intros k Hk. cbv beta.
    destruct (String.eqb_spec k marker) as [->|Hkm]; [reflexivity|].
    rewrite splice_0_minus_1. change (@nil string ++ [k]) with [k].
    destruct (In_keys_assoc k fs Hk) as [c Hc].
    pose proof (Hchildren k Hk Hkm) as Hc'. rewrite Hc in Hc'. simpl in Hc'.
    unfold walkToNode. rewrite (walkFrom_child fs k c Hc Hc').
    + cbn [w_node w_tree w_path node_at]. rewrite Hc.
      cbn [to_boolean]. rewrite Hc'. reflexivity.
    + intros ->. now apply Hw.
Qed.

Lemma isAllFolded_top_level_witness :
  isAllFolded (AnArray ["*"]) (loaded petstore) =
  Some (Outcome (loaded petstore) (AnArray ["*"]) (Ok true)).
Proof.
  refine (isAllFolded_top_level (loaded petstore)
            [("paths", VObj [(marker, VBool false)])] eq_refl _ _).
  - simpl. intros [H|[]]. discriminate H.
  - simpl. intros k [<-|[]] _. reflexivity.
Defined.

(** The loop of [visit] over top-level keys, for any loop body that toggles
    the child it is given. *)
Lemma forEach_toggles_children
  (body : string -> value -> list string -> option (visited unit)) :
  (forall t p, body marker t p = Some (Visited t p (Ok tt))) ->
  (forall k fs cf p,
      k <> marker -> k <> wildcard -> assoc k fs = Some (VObj cf) ->
      body k (VObj fs) p =
      Some (Visited
              (VObj (put k (VObj (put marker
                                    (VBool (negb (to_boolean (assoc marker cf))))
                                    cf)) fs))
              p (Ok tt))) ->
  forall (ks : list string) (fs : list (string * value)) (p : list string),
    NoDup ks ->
    ~ In wildcard ks ->
    (forall k, In k ks -> k <> marker -> exists cf, assoc k fs = Some (VObj cf)) ->
    exists fs',
      forEach body ks (VObj fs) p = Some (Visited (VObj fs') p (Ok tt))
      /\ keys fs' = keys fs
      /\ (forall k, ~ In k ks \/ k = marker -> assoc k fs' = assoc k fs)
      /\ (forall k, In k ks -> k <> marker ->
                    read_marker (VObj fs') [k] =
                    Some (VBool (negb (to_boolean (read_marker (VObj fs) [k]))))).
Proof.
  intros Hmarker Hchild.
  induction ks as [|k ks IH]; intros fs p Hnd Hw Hobj.
  - exists fs. repeat split; trivial. intros k [].
  - inversion Hnd as [|? ? Hk Hnd']; subst.
    assert (Hw' : ~ In wildcard ks) by (intros H; apply Hw; now right).
    simpl. destruct (String.eqb_spec k marker) as [->|Hkm].
    + rewrite Hmarker.
      destruct (IH fs p Hnd' Hw') as (fs' & Hloop & Hkeys & Hsame & Hflip).
      { intros k' Hk'. apply Hobj. now right. }
      exists fs'. repeat split; trivial.
      * intros k' [Hk'|Hk']; apply Hsame; [|now right].
        left. intros H. apply Hk'. now right.
      * intros k' [<-|Hk'] Hne; [contradiction|now apply Hflip].
    + destruct (Hobj k (or_introl eq_refl) Hkm) as [cf Hcf].
      assert (Hkw : k <> wildcard) by (intros ->; apply Hw; now left).
      rewrite (Hchild k fs cf p Hkm Hkw Hcf).
      set (c' := VObj (put marker (VBool (negb (to_boolean (assoc marker cf))))
                           cf)).
      destruct (IH (put k c' fs) p Hnd' Hw')
        as (fs' & Hloop & Hkeys & Hsame & Hflip).
      { intros k' Hk' Hne. rewrite assoc_put_other.
        - apply Hobj; [now right|exact Hne].
        - intros ->. contradiction. }
      exists fs'. split; [exact Hloop|]. split; [|split].
      * rewrite Hkeys. exact (keys_put_existing k c' _ fs Hcf).
      * intros k' Hk'. rewrite Hsame.
        -- apply assoc_put_other. intros ->.
           destruct Hk' as [Hk'|Hk']; [apply Hk'; now left|contradiction].
        -- destruct Hk' as [Hk'|Hk']; [|now right].
           left. intros H. apply Hk'. now right.
      * intros k' [<-|Hk'] Hne.
        -- unfold read_marker. simpl.
           rewrite (Hsame k (or_introl Hk)), assoc_put_same, Hcf.
           unfold c'. now rewrite assoc_put_same.
        -- rewrite (Hflip k' Hk' Hne). unfold read_marker. simpl.
           rewrite assoc_put_other; [reflexivity|].
           intros ->. contradiction.
Qed.

(** X13.  At the top level the wildcard works as a bulk toggle: on a tree
    whose entries (the marker apart) are objects, [toggleFoldAll(['*'])]
    flips the marker of every top-level node, keeps the root's own marker,
    adds or removes no top-level key, leaves the array as it was and
    returns. *)
Theorem toggleFoldAll_top_level (s : service) (fs : list (string * value)) :
  tree s = VObj fs ->
  NoDup (keys fs) ->
  ~ In wildcard (keys fs) ->
  (forall k, In k (keys fs) -> k <> marker ->
             exists cf, assoc k fs = Some (VObj cf)) ->
  exists o fs',
    toggleFoldAll (AnArray ["*"]) s = Some o
    /\ o_ret o = Ok tt
    /\ o_arg o = AnArray ["*"]
    /\ tree (o_service o) = VObj fs'
    /\ keys fs' = keys fs
    /\ assoc marker fs' = assoc marker fs
    /\ forall k, In k (keys fs) -> k <> marker ->
                 read_marker (VObj fs') [k] =
                 Some (VBool (negb (to_boolean (read_marker (VObj fs) [k])))).
Proof.
  intros Htree Hnd Hw Hobj. unfold toggleFoldAll, visit.
  rewrite Htree. change (wildcards ["*"]) with 1. cbn [visit_fuel].
  change (not_ends_with_wildcard ["*"]) with false. cbv iota.
  change (indexOf wildcard ["*"]) with 0%Z.
  change (slice ["*"] 0 0) with (@nil string).
  change (slice_from ["*"] 0) with ["*"].
  change (walkToNode (VObj fs) []) with (Walked (VObj fs) [] (Ok [])).
  cbn [w_node w_tree w_path isObject_at node_at isObject negb keys_at].
  match goal with
  | |- context [forEach ?body (keys fs) (VObj fs) ["*"]] =>
      set (loop_body := body)
  end.
  assert (Hmarker : forall t p,
             loop_body marker t p = Some (Visited t p (Ok tt)))
    by reflexivity.
  assert (Hchild : forall k fs0 cf p,
             k <> marker -> k <> wildcard -> assoc k fs0 = Some (VObj cf) ->
             loop_body k (VObj fs0) p =
             Some (Visited
                     (VObj (put k (VObj (put marker
                                           (VBool (negb (to_boolean
                                                           (assoc marker cf))))
                                           cf)) fs0))
                     p (Ok tt))).
  { intros k fs0 cf p Hkm Hkw Hcf. unfold loop_body.
    apply String.eqb_neq in Hkm. rewrite Hkm.
    rewrite splice_0_minus_1. change (@nil string ++ [k]) with [k].
    unfold walkToNode. rewrite (walkFrom_child fs0 k (VObj cf) Hcf eq_refl Hkw).
    cbn [w_node w_tree w_path is_single_wildcard].
    change (wildcard =? wildcard)%string with true. cbv iota.
    unfold toggle_node, write_marker, read_marker. simpl node_at.
    rewrite Hcf. simpl. now rewrite Hcf. }
  destruct (forEach_toggles_children loop_body Hmarker Hchild
              (keys fs) fs ["*"] Hnd Hw Hobj)
    as (fs' & Hloop & Hkeys & Hsame & Hflip).
  rewrite Hloop. cbn [v_ret v_tree v_path].
  eexists. exists fs'. split; [reflexivity|].
  cbn [o_ret o_arg o_service].
  rewrite tree_invokeChangeListeners, tree_set_tree.
  repeat split; trivial. apply Hsame. now right.
Qed.

Lemma toggleFoldAll_top_level_witness :
  exists o fs',
    toggleFoldAll (AnArray ["*"]) (loaded petstore) = Some o
    /\ tree (o_service o) = VObj fs'
    /\ read_marker (VObj fs') ["paths"] = Some (VBool true).
Proof.
  destruct (toggleFoldAll_top_level (loaded petstore)
              [("paths", VObj [(marker, VBool false)])] eq_refl)
    as (o & fs' & Ho & _ & _ & Ht & _ & _ & Hflip).
  - simpl. repeat constructor. intros [].
  - simpl. intros [H|[]]. discriminate H.
  - simpl. intros k [<-|[]] _. eexists. reflexivity.
  - exists o, fs'. repeat split; trivial.
    apply (Hflip "paths"); [now left|discriminate].
Defined.

(** ** How a path comes to exist *)

(** A tree made of objects either has the node a path addresses, or has a
    node [q] on the way that lacks the next key. *)
Lemma first_missing_key (p : list string) :
  forall t : value,
    node_shaped t = true ->
    ~ In marker p ->
    (exists fs, node_at t p = Some (VObj fs))
    \/ (exists q k rest fs,
           p = q ++ k :: rest
           /\ node_at t q = Some (VObj fs)
           /\ assoc k fs = None).
Proof.
  induction p as [|k p IH]; intros t Hwf Hm.
  - destruct (node_shaped_is_object _ Hwf) as [fs ->]. left. now exists fs.
  - destruct (node_shaped_is_object _ Hwf) as [fs ->].
    assert (Hkm : k <> marker) by (intros ->; apply Hm; now left).
    assert (Hm' : ~ In marker p) by (intros H; apply Hm; now right).
    destruct (assoc k fs) as [c|] eqn:Hk.
    + destruct (IH c (node_shaped_child _ _ _ Hwf Hk Hkm) Hm')
        as [[fs' Hn]|(q & k' & rest & fs' & -> & Hq & Hk')].
      * left. exists fs'. simpl. now rewrite Hk.
      * right. exists (k :: q), k', rest, fs'. simpl. rewrite Hk. auto.
    + right. exists [], k, p, fs. auto.
Qed.

(** One walk makes the first missing node of its path exist. *)
Lemma walkFrom_creates_first_missing (t : value) (q : ref) (k : string)
  (rest : list string) (fs : list (string * value)) :
  ~ In wildcard (q ++ k :: rest) ->
  ~ In marker (q ++ k :: rest) ->
  node_at t q = Some (VObj fs) ->
  assoc k fs = None ->
  exists fs',
    node_at (w_tree (walkFrom t (q ++ k :: rest))) (q ++ [k]) = Some (VObj fs').
Proof.
  intros Hw Hm Hq Hk.
  assert (Hwq : ~ In wildcard q).
  { intros H. apply Hw. apply in_or_app. now left. }
  assert (Hkw : k <> wildcard).
  { intros ->. apply Hw. apply in_or_app. right. now left. }
  assert (Hmr : ~ In marker rest).
  { intros H. apply Hm. apply in_or_app. right. now right. }
  rewrite (walkFrom_existing q t fs (k :: rest) Hwq Hq).
  rewrite walkFrom_missing; [|exact Hkw|now rewrite Hk].
  cbn [w_tree]. rewrite node_at_app.
  rewrite (node_at_update_at q _ t _ Hq).
  destruct (walkFrom_keeps_nodes rest (VObj (put k fresh_node fs)) [k]
              [(marker, VBool false)] Hmr) as (fs' & Hn & _).
  - simpl. now rewrite assoc_put_same.
  - eauto.
Qed.

Lemma isFolded_tree (p : list string) (s : service) :
  tree (o_service (isFolded (AnArray p) s)) = w_tree (walkFrom (tree s) p).
Proof.
  unfold isFolded, walkToNode.
  destruct (w_node (walkFrom (tree s) p)); [destruct (to_boolean _)|];
    simpl; apply tree_set_tree.
Qed.

Lemma isFolded_times_S (n : nat) (p : list string) (s : service) :
  isFolded_times (S n) p s =
  isFolded_times n p (o_service (isFolded (AnArray p) s)).
Proof.
  unfold isFolded_times. induction n as [|n IH]; [reflexivity|].
  simpl in *. now rewrite IH.
Qed.

Lemma isFolded_times_keeps (n : nat) (p : list string) :
  forall s : service,
    node_shaped (tree s) = true ->
    ~ In wildcard p ->
    ~ In marker p ->
    node_shaped (tree (isFolded_times n p s)) = true
    /\ forall r fs,
        node_at (tree s) r = Some (VObj fs) ->
        exists fs', node_at (tree (isFolded_times n p s)) r = Some (VObj fs').
Proof.
  induction n as [|n IH]; intros s Hns Hw Hm.
  - split; [exact Hns|]. intros r fs H. now exists fs.
  - rewrite isFolded_times_S.
    destruct (walkFrom_node_shaped p (tree s) Hns Hw Hm)
      as (t' & node & fs0 & Hwalk & Hns' & _).
    assert (Ht : tree (o_service (isFolded (AnArray p) s)) = t').
    { now rewrite isFolded_tree, Hwalk. }
    destruct (IH (o_service (isFolded (AnArray p) s))) as [Hns2 Hkeep];
      trivial; [now rewrite Ht|].
    split; [exact Hns2|]. intros r fs Hr.
    destruct (walkFrom_keeps_nodes p (tree s) r fs Hm Hr) as (fs1 & Hr1 & _).
    apply (Hkeep r fs1). now rewrite isFolded_tree.
Qed.

(** The nodes of a tree made of objects are made of objects. *)
Lemma node_shaped_at (q : ref) :
  forall (t : value) (fs : list (string * value)),
    node_shaped t = true ->
    ~ In marker q ->
    node_at t q = Some (VObj fs) ->
    node_shaped (VObj fs) = true.
Proof.
  induction q as [|k0 q IHq]; intros t fs Hns Hm Hq.
  - simpl in Hq. now injection Hq as <-.
  - destruct (node_shaped_is_object _ Hns) as [fs0 ->]. simpl in Hq.
    destruct (assoc k0 fs0) as [c0|] eqn:Hk0; [|discriminate].
    apply (IHq c0); trivial.
    + apply (node_shaped_child fs0 k0 c0 Hns Hk0).
      intros ->. apply Hm. now left.
    + intros H. apply Hm. now right.
Qed.

(** After as many walks as the remainder of the path is long, the path is
    there. *)
Lemma isFolded_times_materializes (rest : list string) :
  forall (n : nat) (s : service) (q : ref) (fs : list (string * value)),
    node_shaped (tree s) = true ->
    ~ In wildcard (q ++ rest) ->
    ~ In marker (q ++ rest) ->
    node_at (tree s) q = Some (VObj fs) ->
    length rest <= n ->
    exists fs',
      node_at (tree (isFolded_times n (q ++ rest) s)) (q ++ rest)
      = Some (VObj fs').
Proof.
  induction rest as [|k rest IH]; intros n s q fs Hns Hw Hm Hq Hn.
  - rewrite app_nil_r in *.
    exact (proj2 (isFolded_times_keeps n q s Hns Hw Hm) q fs Hq).
  - assert (Hkm : k <> marker).
    { intros ->. apply Hm. apply in_or_app. right. now left. }
    assert (Hmq : ~ In marker q).
    { intros H. apply Hm. apply in_or_app. now left. }
    replace (q ++ k :: rest) with ((q ++ [k]) ++ rest) in *
      by (now rewrite <- app_assoc).
    destruct (assoc k fs) as [c|] eqn:Hk.
    + pose proof (node_shaped_at q (tree s) fs Hns Hmq Hq) as Hqns.
      destruct (node_shaped_is_object _
                  (node_shaped_child fs k c Hqns Hk Hkm)) as [cf ->].
      apply (IH n s (q ++ [k]) cf); trivial; [|simpl in Hn; lia].
      rewrite node_at_app, Hq. simpl. now rewrite Hk.
    + destruct n as [|n]; [simpl in Hn; lia|].
      rewrite isFolded_times_S.
      replace ((q ++ [k]) ++ rest) with (q ++ k :: rest) in *
        by (now rewrite <- app_assoc).
      destruct (walkFrom_creates_first_missing (tree s) q k rest fs Hw Hm Hq Hk)
        as [cf Hcf].
      destruct (walkFrom_node_shaped (q ++ k :: rest) (tree s) Hns Hw Hm)
        as (t' & node & fs0 & Hwalk & Hns' & _).
      replace (q ++ k :: rest) with ((q ++ [k]) ++ rest) in *
        by (now rewrite <- app_assoc).
      apply (IH n _ (q ++ [k]) cf); trivial.
      * now rewrite isFolded_tree, Hwalk.
      * now rewrite isFolded_tree.
      * simpl in Hn. lia.
Qed.

(** X15.  Paths come to exist by being asked for: on a tree made of
    objects (the default tree is one), for a path [p] free of the wildcard,
    of the marker key and of the names of inherited members, after
    [isFolded(p)] has been called as many times as [p] is long (a call of
    [walkToNode] creates one more of the missing nodes each time), the node
    addressed by [p] exists; after [fold(p)] the answer of [isFolded(p)] is
    then [true], and after [unfold(p)] it is [false]. *)
Theorem path_exists_after_enough_calls (s : service) (p : list string)
  (n : nat) :
  node_shaped (tree s) = true ->
  ~ In wildcard p ->
  ~ In marker p ->
  own_only p = true ->
  length p <= n ->
  let s' := isFolded_times n p s in
  (exists fs, node_at (tree s') p = Some (VObj fs))
  /\ o_ret (isFolded (AnArray p) (o_service (fold (AnArray p) s'))) =
     Ok (Some (VBool true))
  /\ o_ret (isFolded (AnArray p) (o_service (unfold (AnArray p) s'))) =
     Ok (Some (VBool false)).
Proof.
  intros Hns Hw Hm _ Hn s'.
  destruct (node_shaped_is_object _ Hns) as [fs0 Hroot].
  destruct (isFolded_times_materializes p n s [] fs0 Hns Hw Hm
              (f_equal Some Hroot) Hn)
    as [fs Hp].
  simpl app in Hp. fold s' in Hp.
  split; [now exists fs|].
  exact (fold_then_isFolded_existing s' p fs Hw Hp).
Qed.

Lemma path_exists_after_enough_calls_witness :
  o_ret (isFolded (AnArray ["paths"; "/pets"])
           (o_service (fold (AnArray ["paths"; "/pets"])
                         (isFolded_times 2 ["paths"; "/pets"] pristine)))) =
  Ok (Some (VBool true)).
Proof.
  refine (proj1 (proj2 (path_exists_after_enough_calls pristine
                          ["paths"; "/pets"] 2 eq_refl _ _ eq_refl _))).
  - simpl. intros [H|[H|[]]]; discriminate H.
  - simpl. intros [H|[H|[]]]; discriminate H.
  - simpl. lia.
Defined.

(** ** Subtrees made of unfolded nodes *)

Lemma all_unfolded_object (fs : list (string * value)) :
  all_unfolded (VObj fs) =
  has_false_marker fs
  && forallb (fun kc => let (k, c) := kc : string * value in
                        (k =? marker)%string || all_unfolded c) fs.
Proof. reflexivity. Qed.

Lemma all_unfolded_is_object (v : value) :
  all_unfolded v = true -> exists fs, v = VObj fs.
Proof. destruct v as [| |fs]; try discriminate. now exists fs. Qed.

Lemma all_unfolded_marker (fs : list (string * value)) :
  all_unfolded (VObj fs) = true -> assoc marker fs = Some (VBool false).
Proof.
  rewrite all_unfolded_object. intros H. apply andb_prop in H as [H _].
  unfold has_false_marker in H.
  destruct (assoc marker fs) as [[|[|]|]|]; try discriminate. reflexivity.
Qed.

Lemma all_unfolded_child (fs : list (string * value)) (k : string) (c : value) :
  all_unfolded (VObj fs) = true ->
  assoc k fs = Some c ->
  k <> marker ->
  all_unfolded c = true.
Proof.
  rewrite all_unfolded_object. intros H Hk Hne.
  apply andb_prop in H as [_ Hall].
  rewrite forallb_forall in Hall. specialize (Hall _ (assoc_In _ _ _ Hk)).
  simpl in Hall. apply String.eqb_neq in Hne. now rewrite Hne in Hall.
Qed.

Lemma all_unfolded_put (fs : list (string * value)) (k : string) (c : value) :
  all_unfolded (VObj fs) = true ->
  all_unfolded c = true ->
  k <> marker ->
  all_unfolded (VObj (put k c fs)) = true.
Proof.
  rewrite !all_unfolded_object. intros H Hc Hne.
  apply andb_prop in H as [Hm Hall]. apply andb_true_intro. split.
  - unfold has_false_marker in *. rewrite assoc_put_other; [exact Hm|].
    intros Heq. now apply Hne.
  - apply forallb_put; [exact Hall|]. cbv beta iota.
    now rewrite Hc, orb_true_r.
Qed.

Lemma all_unfolded_set_false (fs : list (string * value)) :
  all_unfolded (VObj fs) = true ->
  all_unfolded (VObj (put marker (VBool false) fs)) = true.
Proof.
  rewrite !all_unfolded_object. intros H.
  apply andb_prop in H as [_ Hall]. apply andb_true_intro. split.
  - unfold has_false_marker. now rewrite assoc_put_same.
  - apply forallb_put; [exact Hall|]. cbv beta iota.
    now rewrite String.eqb_refl.
Qed.

(** A walk keeps every all-unfolded subtree all unfolded, wherever it is. *)
Lemma walkFrom_keeps_all_unfolded (path : list string) :
  forall (t : value) (r : ref) (c : value),
    ~ In marker path ->
    node_at t r = Some c ->
    all_unfolded c = true ->
    exists c',
      node_at (w_tree (walkFrom t path)) r = Some c'
      /\ all_unfolded c' = true.
Proof.
  induction path as [|key path IH]; intros t r c Hm Hr Hc; [simpl; eauto|].
  assert (Hkm : key <> marker) by (intros ->; apply Hm; now left).
  assert (Hm' : ~ In marker path) by (intros H; apply Hm; now right).
  simpl. destruct (key =? wildcard)%string; [simpl; eauto|].
  destruct t as [| |fs0]; [simpl; eauto..|].
  assert (Hcreate :
            to_boolean (assoc key fs0) = false ->
            exists c',
              node_at (w_tree (walkFrom (VObj (put key fresh_node fs0)) path)) r
              = Some c'
              /\ all_unfolded c' = true).
  { intros Hmiss. destruct r as [|k r'].
    - injection Hr as <-.
      apply (IH _ [] (VObj (put key fresh_node fs0))); trivial.
      now apply all_unfolded_put.
    - simpl in Hr. destruct (String.eqb_spec k key) as [->|Hne].
      + destruct (assoc key fs0) as [c0|]; [|discriminate].
        destruct (all_unfolded_is_object _ Hc) as [cf ->].
        simpl in Hmiss. rewrite (node_at_object_truthy _ _ _ Hr) in Hmiss.
        discriminate.
      + apply (IH _ (k :: r') c); trivial.
        simpl. now rewrite assoc_put_other. }
  destruct (assoc key fs0) as [child|] eqn:Hk; [|now apply Hcreate].
  destruct (truthy child) eqn:Ht; [|now apply Hcreate].
  simpl. destruct r as [|k r'].
  - injection Hr as <-.
    destruct (IH child [] child Hm' eq_refl
                (all_unfolded_child _ _ _ Hc Hk Hkm)) as (c' & Hc' & Hu).
    simpl in Hc'. injection Hc' as <-.
    eexists. split; [reflexivity|]. now apply all_unfolded_put.
  - simpl in *. destruct (String.eqb_spec k key) as [->|Hne].
    + rewrite assoc_put_same. rewrite Hk in Hr. now apply (IH child r' c).
    + rewrite assoc_put_other by exact Hne. eauto.
Qed.

(** Inside an all-unfolded tree a walk ends at an unfolded node. *)
Lemma walkFrom_all_unfolded (path : list string) (t : value) :
  all_unfolded t = true ->
  ~ In wildcard path ->
  ~ In marker path ->
  exists t' node fs',
    walkFrom t path = Walked t' [] (Ok node)
    /\ node_at t' node = Some (VObj fs')
    /\ assoc marker fs' = Some (VBool false).
Proof.
  revert t. induction path as [|key path IH]; intros t Hu Hw Hm.
  - destruct (all_unfolded_is_object _ Hu) as [fs ->].
    exists (VObj fs), [], fs. repeat split. now apply all_unfolded_marker.
  - destruct (all_unfolded_is_object _ Hu) as [fs ->].
    assert (Hkw : key <> wildcard) by (intros ->; apply Hw; now left).
    assert (Hkm : key <> marker) by (intros ->; apply Hm; now left).
    assert (Hw' : ~ In wildcard path) by (intros H; apply Hw; now right).
    assert (Hm' : ~ In marker path) by (intros H; apply Hm; now right).
    assert (Hcreate :
              exists t' node fs',
                walkFrom (VObj (put key fresh_node fs)) path =
                Walked t' [] (Ok node)
                /\ node_at t' node = Some (VObj fs')
                /\ assoc marker fs' = Some (VBool false)).
    { apply IH; trivial. now apply all_unfolded_put. }
    simpl. apply String.eqb_neq in Hkw. rewrite Hkw.
    destruct (assoc key fs) as [child|] eqn:Hk; [|exact Hcreate].
    destruct (truthy child) eqn:Ht; [|exact Hcreate].
    destruct (IH child (all_unfolded_child _ _ _ Hu Hk Hkm) Hw' Hm')
      as (t' & node & fs' & -> & Hn & Hb).
    exists (VObj (put key t' fs)), (key :: node), fs'. simpl.
    rewrite assoc_put_same. auto.
Qed.

(** Unfolding a node keeps every all-unfolded subtree all unfolded. *)
Lemma unfold_keeps_all_unfolded (node : ref) :
  forall (t : value) (r : ref) (c : value),
    ~ In marker node ->
    ~ In marker r ->
    node_at t r = Some c ->
    all_unfolded c = true ->
    exists c',
      node_at (update_at node (set_field marker (VBool false)) t) r = Some c'
      /\ all_unfolded c' = true.
Proof.
  induction node as [|k0 node IH]; intros t r c Hn Hr Hnode Hc.
  - simpl. destruct t as [| |fs0]; [eauto..|]. destruct r as [|k r'].
    + injection Hnode as <-. eexists. split; [reflexivity|].
      now apply all_unfolded_set_false.
    + simpl in *. rewrite assoc_put_other; [eauto|].
      intros ->. apply Hr. now left.
  - simpl. destruct t as [| |fs0]; [eauto..|].
    destruct (assoc k0 fs0) as [c0|] eqn:Hk0; [|eauto].
    assert (Hk0m : k0 <> marker) by (intros ->; apply Hn; now left).
    assert (Hn' : ~ In marker node) by (intros H; apply Hn; now right).
    destruct r as [|k r'].
    + injection Hnode as <-.
      destruct (IH c0 [] c0 Hn' (fun H => H) eq_refl
                  (all_unfolded_child _ _ _ Hc Hk0 Hk0m)) as (c' & Hc' & Hu).
      simpl in Hc'. injection Hc' as <-.
      eexists. split; [reflexivity|]. now apply all_unfolded_put.
    + simpl in *. destruct (String.eqb_spec k k0) as [->|Hkne].
      * rewrite assoc_put_same. rewrite Hk0 in Hnode.
        apply (IH c0 r' c); trivial. intros H. apply Hr. now right.
      * rewrite assoc_put_other by exact Hkne. eauto.
Qed.

(** X16.  On a tree made of objects (the default tree is one), for every
    path free of the wildcard, of the marker key and of the names of
    inherited members, the answer of [isFolded(p)] after [unfold(p)] is
    [false], whether or not the node addressed by [p] existed: when it did
    not, the walk of [isFolded] ends inside the subtree that [unfold] began
    to create, all of whose nodes are unfolded. *)
Theorem unfold_then_isFolded (s : service) (p : list string) :
  node_shaped (tree s) = true ->
  ~ In wildcard p ->
  ~ In marker p ->
  own_only p = true ->
  o_ret (isFolded (AnArray p) (o_service (unfold (AnArray p) s))) =
  Ok (Some (VBool false)).
Proof.
  intros Hwf Hw Hm _.
  destruct (first_missing_key p (tree s) Hwf Hm)
    as [[fs Hp]|(q & k & rest & fs & Hpath & Hq & Hk)].
  { exact (proj2 (fold_then_isFolded_existing s p fs Hw Hp)). }
  assert (Hwq : ~ In wildcard q).
  { intros H. apply Hw. rewrite Hpath. apply in_or_app. now left. }
  assert (Hkw : k <> wildcard).
  { intros ->. apply Hw. rewrite Hpath. apply in_or_app. right. now left. }
  assert (Hwr : ~ In wildcard rest).
  { intros H. apply Hw. rewrite Hpath. apply in_or_app. right. now right. }
  assert (Hmr : ~ In marker rest).
  { intros H. apply Hm. rewrite Hpath. apply in_or_app. right. now right. }
  assert (Hmqk : ~ In marker (q ++ [k])).
  { intros H. apply Hm. rewrite Hpath. apply in_app_or in H as [H|[<-|[]]];
      apply in_or_app; [now left|right; now left]. }
  (* the walk of [unfold] *)
  destruct (walkFrom_node_shaped p (tree s) Hwf Hw Hm)
    as (t1 & node & fs1 & Hwalk & _ & Hnode).
  assert (Hnm : ~ In marker node).
  { intros H. apply Hm.
    apply (walkFrom_node_incl p (tree s) node); [now rewrite Hwalk|exact H]. }
  assert (Hsub1 : exists c1, node_at t1 (q ++ [k]) = Some c1
                             /\ all_unfolded c1 = true).
  { pose proof Hwalk as Hwalk'. rewrite Hpath in Hwalk'.
    rewrite (walkFrom_existing q (tree s) fs (k :: rest) Hwq Hq) in Hwalk'.
    rewrite walkFrom_missing in Hwalk'; [|exact Hkw|now rewrite Hk].
    injection Hwalk' as Ht1 _ _. rewrite <- Ht1.
    rewrite node_at_app, (node_at_update_at q _ _ _ Hq).
    apply (walkFrom_keeps_all_unfolded rest _ [k] fresh_node Hmr);
      [|reflexivity].
    simpl. now rewrite assoc_put_same. }
  destruct Hsub1 as (c1 & Hc1 & Hu1).
  (* the tree [unfold] leaves *)
  set (t2 := update_at node (set_field marker (VBool false)) t1).
  assert (Htree : tree (o_service (unfold (AnArray p) s)) = t2).
  { unfold unfold, changeFold, walkToNode. rewrite Hwalk. simpl.
    rewrite Hnode. simpl. unfold write_marker. rewrite Hnode. simpl.
    now rewrite tree_invokeChangeListeners, !tree_set_tree. }
  destruct (unfold_keeps_all_unfolded node t1 (q ++ [k]) c1 Hnm Hmqk Hc1 Hu1)
    as (c2 & Hc2 & Hu2).
  fold t2 in Hc2.
  rewrite node_at_app in Hc2.
  destruct (node_at t2 q) as [[| |fs2]|] eqn:Hq2; try discriminate.
  simpl in Hc2. destruct (assoc k fs2) as [c2'|] eqn:Hk2; [|discriminate].
  injection Hc2 as ->.
  (* the walk of [isFolded] *)
  destruct (all_unfolded_is_object _ Hu2) as [cf2 ->].
  destruct (walkFrom_all_unfolded rest (VObj cf2) Hu2 Hwr Hmr)
    as (t3 & node3 & fs3 & Hwalk3 & Hnode3 & Hmk3).
  unfold isFolded, walkToNode. rewrite Htree, Hpath.
  rewrite (walkFrom_existing q t2 fs2 (k :: rest) Hwq Hq2).
  cbn [walkFrom]. apply String.eqb_neq in Hkw. rewrite Hkw, Hk2.
  cbn [truthy]. rewrite Hwalk3.
  cbn [w_tree w_path w_node result_map o_ret].
  rewrite node_at_app.
  rewrite (node_at_update_at q (fun _ => VObj (put k t3 fs2)) t2 _ Hq2).
  simpl node_at. rewrite assoc_put_same, Hnode3. cbn [to_boolean truthy o_ret].
  unfold read_marker. rewrite node_at_app.
  rewrite (node_at_update_at q (fun _ => VObj (put k t3 fs2)) t2 _ Hq2).
  simpl node_at. rewrite assoc_put_same, Hnode3. now rewrite Hmk3.
Qed.

Lemma unfold_then_isFolded_witness :
  o_ret (isFolded (AnArray ["paths"; "/pets"; "get"])
           (o_service (unfold (AnArray ["paths"; "/pets"; "get"])
                         (loaded marked_tree)))) =
  Ok (Some (VBool false)).
Proof.
  refine (unfold_then_isFolded (loaded marked_tree)
            ["paths"; "/pets"; "get"] eq_refl _ _ eq_refl).
  - simpl. intros [H|[H|[H|[]]]]; discriminate H.
  - simpl. intros [H|[H|[H|[]]]]; discriminate H.
Defined.

(** ** Listeners over a session *)

Lemma changeFold_changeListeners (p : list string) (v : option bool)
  (s : service) :
  changeListeners (o_service (changeFold p v s)) = changeListeners s.
Proof.
  unfold changeFold.
  destruct (w_node _); [destruct (to_boolean _); [destruct (write_marker _ _ _)|]|];
    simpl; repeat rewrite (proj1 (proj2 (localStorage_set_tree _ _)));
    reflexivity.
Qed.

Lemma after_call_changeListeners (c : call) (s : service) :
  (forall fn, c <> CallOnFoldChanged fn) ->
  changeListeners (after_call c s) = changeListeners s.
Proof.
  intros Hc. destruct c as [a|a|a|a|a|a|fn|]; simpl.
  - destruct a; [apply changeFold_changeListeners|reflexivity].
  - destruct a; [apply changeFold_changeListeners|reflexivity].
  - destruct a; [apply changeFold_changeListeners|reflexivity].
  - destruct a as [p|x]; simpl; [|reflexivity].
    destruct (visit toggle_node p (tree s)) as [v|]; [|reflexivity].
    destruct (v_ret v); simpl;
      exact (proj1 (proj2 (localStorage_set_tree _ _))).
  - destruct a as [p|x]; simpl; [|reflexivity].
    destruct (w_node _); [destruct (to_boolean _)|]; simpl;
      exact (proj1 (proj2 (localStorage_set_tree _ _))).
  - destruct a as [p|x]; simpl; [|reflexivity].
    destruct (isAllFolded_tree p (tree s)) as [v|]; [|reflexivity].
    exact (proj1 (proj2 (localStorage_set_tree _ _))).
  - now destruct (Hc fn).
  - reflexivity.
Qed.

Lemma after_call_listeners (c : call) (s : service) :
  NoDup (changeListeners s) ->
  NoDup (changeListeners (after_call c s))
  /\ exists added,
      changeListeners (after_call c s) = changeListeners s ++ added
      /\ forall fn, In fn added -> c = CallOnFoldChanged fn.
Proof.
  intros Hnd. destruct c as [a|a|a|a|a|a|fn|];
    try (rewrite after_call_changeListeners by discriminate;
         split; [exact Hnd|]; exists []; split;
         [now rewrite app_nil_r|intros ? []]).
  simpl. unfold onFoldChanged.
  destruct (existsb (Nat.eqb fn) (changeListeners s)) eqn:He.
  - split; [exact Hnd|]. exists []. split; [now rewrite app_nil_r|intros ? []].
  - simpl. split.
    + apply NoDup_app; [exact Hnd|repeat constructor; intros []|].
      intros x Hx [<-|[]]. apply existsb_eqb_In in Hx. congruence.
    + exists [fn]. split; [reflexivity|]. now intros fn' [<-|[]].
Qed.

(** X17.  Over a whole session the listeners form a set that only grows:
    after any calls on a freshly constructed service no listener is
    registered twice, every listener registered is one some [onFoldChanged]
    call was given, and a listener once registered stays registered, at its
    place. *)
Theorem listeners_over_session (ls : Storage) (s0 : service) (cs cs' : list call) :
  FoldStateManager (Some ls) = Ok s0 ->
  let s := after_calls cs s0 in
  NoDup (changeListeners s)
  /\ (forall fn, In fn (changeListeners s) -> In (CallOnFoldChanged fn) cs)
  /\ exists added,
      changeListeners (after_calls cs' s) = changeListeners s ++ added.
Proof.
  intros Hc s.
  assert (Hgen : forall l s1,
             NoDup (changeListeners s1) ->
             NoDup (changeListeners (after_calls l s1))
             /\ exists added,
                 changeListeners (after_calls l s1) =
                 changeListeners s1 ++ added
                 /\ forall fn, In fn added -> In (CallOnFoldChanged fn) l).
  { induction l as [|c l IH]; intros s1 Hnd.
    - split; [exact Hnd|]. exists []. split; [now rewrite app_nil_r|intros ? []].
    - change (after_calls (c :: l) s1) with (after_calls l (after_call c s1)).
      destruct (after_call_listeners c s1 Hnd) as (Hnd1 & a1 & Ha1 & Hin1).
      destruct (IH _ Hnd1) as (Hnd2 & a2 & Ha2 & Hin2).
      split; [exact Hnd2|]. exists (a1 ++ a2). split.
      + rewrite Ha2, Ha1. now rewrite app_assoc.
      + intros fn Hfn. apply in_app_or in Hfn as [Hfn|Hfn].
        * left. exact (Hin1 fn Hfn).
        * right. now apply Hin2. }
  assert (H0 : changeListeners s0 = []).
  { destruct ls as [[|v]|]; simpl in Hc; try discriminate;
      injection Hc as <-; reflexivity. }
  assert (Hnd0 : NoDup (changeListeners s0)) by (rewrite H0; constructor).
  destruct (Hgen cs s0 Hnd0) as (Hnd & a & Ha & Hin).
  fold s in Hnd, Ha. rewrite H0 in Ha. simpl in Ha.
  split; [exact Hnd|]. split.
  - intros fn Hfn. apply Hin. now rewrite <- Ha.
  - destruct (Hgen cs' s Hnd) as (_ & a' & Ha' & _). now exists a'.
Qed.

Lemma listeners_over_session_witness :
  NoDup (changeListeners
           (after_calls [CallOnFoldChanged 1; CallFold (AnArray ["paths"]);
                         CallOnFoldChanged 1; CallOnFoldChanged 2]
                        pristine)).
Proof.
  exact (proj1 (listeners_over_session None pristine
                  [CallOnFoldChanged 1; CallFold (AnArray ["paths"]);
                   CallOnFoldChanged 1; CallOnFoldChanged 2] [] eq_refl)).
Defined.

(** ** A primitive at the root *)

(** X18.  When the stored text is the JSON text [true], the service is
    constructed with [foldState] bound to the primitive [true]; from then on
    every [changeFold] on a path that names no inherited member raises (a
    [TypeError] for the property write on a primitive, or the wildcard
    [Error]), the tree stays [true], nothing is stored and no listener is
    called; [isFolded([])] answers [undefined]. *)
Theorem primitive_root (s : service) (p : list string) (v : option bool) :
  FoldStateManager (Some (Some (JSON (VBool true)))) =
  Ok (Service defaultState_literal (Parsed (VBool true)) []
              (Some (JSON (VBool true))) [])
  /\ (tree s = VBool true ->
      own_only p = true ->
      (exists e, o_ret (changeFold p v s) = Raise e
                 /\ (e = PrimitiveProperty \/ e = WildcardKey))
      /\ o_service (changeFold p v s) = s
      /\ isFolded (AnArray []) s = Outcome s (AnArray []) (Ok undefined)).
Proof.
  split; [reflexivity|]. intros Ht _.
  unfold changeFold, isFolded, walkToNode. rewrite Ht.
  split; [|split].
  - destruct p as [|k p]; simpl; [eauto|].
    destruct (k =? wildcard)%string; simpl; eauto.
  - rewrite <- Ht.
    destruct p as [|k p]; simpl; rewrite Ht; simpl;
      [|destruct (k =? wildcard)%string; simpl];
      rewrite <- Ht; apply set_tree_tree.
  - simpl. rewrite <- Ht at 1. now rewrite set_tree_tree.
Qed.

Lemma primitive_root_witness :
  o_service (changeFold ["paths"] (Some true) (loaded (VBool true))) =
  loaded (VBool true).
Proof.
  exact (proj1 (proj2 (proj2 (primitive_root (loaded (VBool true)) ["paths"]
                                (Some true)) eq_refl eq_refl))).
Defined.
